(** * Root finding in [fako1024/numerics]: a shallow embedding

    The development follows the Go sources of the packages [numerics]
    (function [Sign]) and [numerics/root] (functions [Bisect],
    [NewtonRaphson], [Homeier], [Find] and the method [Finder.loop]).

    - [float64] values are IEEE-754 binary64 numbers, taken from the
      specification of floating-point arithmetic of the Standard Library
      ([SpecFloat], precision 53, maximal exponent 1024).  All NaNs are
      one value, which is all the Go code can observe.  Every operation
      rounds on its own (no fused multiply-add).
    - [int] is the 64-bit Go integer: an element of [Z] with the
      wrap-around of [++] written out.
    - The calls of the caller's closures [fx] and [dfx], the accesses to
      the map [resultLookup] and the two places of the loop that the
      properties talk about (the assignment [x = xNew] and the convergence
      condition) are recorded in a log, in the order in which the program
      performs them.
    - The [for] loop of [Finder.loop] has no bound of its own; it is run
      for a given number of rounds.
    - The Finder that [Find] allocates and the map that [Finder.loop]
      makes are objects of a heap (module [Store]): a call of [Find] is
      run on the objects the calls before it have left, and its passes
      are the passes of the loop on the variables. *)

From Stdlib Require Import ZArith List Bool Lia.
From Stdlib Require Import Floats.SpecFloat.
Import ListNotations.

Local Open Scope Z_scope.

(** ** float64 *)

Module F64.

Definition float64 : Type := spec_float.

Definition prec : Z := 53.
Definition emax : Z := 1024.

Definition add : float64 -> float64 -> float64 := SFadd prec emax.
Definition sub : float64 -> float64 -> float64 := SFsub prec emax.
Definition mul : float64 -> float64 -> float64 := SFmul prec emax.
Definition div : float64 -> float64 -> float64 := SFdiv prec emax.

(** Go's comparison operators on float64: every comparison with a NaN
    is false, except [!=], which is true. *)
Definition eqb (a b : float64) : bool := SFeqb a b.
Definition neqb (a b : float64) : bool := negb (SFeqb a b).
Definition ltb (a b : float64) : bool := SFltb a b.
Definition gtb (a b : float64) : bool := SFltb b a.
Definition leb (a b : float64) : bool := SFleb a b.

(** Conversion of an integer constant. *)
Definition of_Z (z : Z) : float64 := binary_normalize prec emax z 0 false.

(** The float64 values of the constants of the sources. *)
Definition c0_1 : float64 := S754_finite false 7205759403792794 (-56).   (* 0.1   = 0x1.999999999999ap-4  *)
Definition c0_5 : float64 := S754_finite false 4503599627370496 (-53).   (* 0.5   = 0x1p-1                *)
Definition c2 : float64 := S754_finite false 4503599627370496 (-51).     (* 2.                            *)
Definition c1e_15 : float64 := S754_finite false 5070602400912918 (-102). (* 1e-15 = 0x1.203af9ee75616p-50 *)
Definition c1e_11 : float64 := S754_finite false 6189700196426901 (-89).  (* 1e-11 = 0x1.5fd7fe1796495p-37 *)
Definition c1e_9 : float64 := S754_finite false 4835703278458517 (-82).   (* 1e-9  = 0x1.12e0be826d695p-30 *)

Definition is_nan (a : float64) : bool :=
  match a with S754_nan => true | _ => false end.

Definition is_finite (a : float64) : bool :=
  match a with S754_zero _ | S754_finite _ _ _ => true | _ => false end.

Definition is_zero (a : float64) : bool :=
  match a with S754_zero _ => true | _ => false end.

End F64.

Export F64.

Declare Scope f64_scope.
Delimit Scope f64_scope with f64.
Bind Scope f64_scope with float64.
Infix "+" := add : f64_scope.
Infix "-" := sub : f64_scope.
Infix "*" := mul : f64_scope.
Infix "/" := div : f64_scope.
Infix "==" := eqb (at level 70, no associativity) : f64_scope.
Infix "!=" := neqb (at level 70, no associativity) : f64_scope.
Infix "<?" := ltb : f64_scope.
Infix ">?" := gtb : f64_scope.
Infix "<=?" := leb : f64_scope.

(** ** The functions of Go's package [math] that the sources call *)

Module math.

(** [math.MaxFloat64 = 0x1p1023 * (1 + (1 - 0x1p-52))] *)
Definition MaxFloat64 : float64 := S754_finite false 9007199254740991 971.

Definition NaN : float64 := S754_nan.

(** [func IsNaN(f float64) (is bool) { return f != f }] *)
Definition IsNaN (f : float64) : bool := (f != f)%f64.

(** [IsInf(f, sign)]: f is an infinity; positive for [sign > 0],
    negative for [sign < 0], either one for [sign == 0]. *)
Definition IsInf (f : float64) (sign : Z) : bool :=
  match f with
  | S754_infinity s => if s then (sign <=? 0)%Z else (sign >=? 0)%Z
  | _ => false
  end.

(** [Abs] clears the sign; [Abs(NaN) = NaN]. *)
Definition Abs (f : float64) : float64 := SFabs f.

End math.

(** ** Go's [int] *)

Module GoInt.

Definition MaxInt : Z := 2 ^ 63 - 1.
Definition MinInt : Z := - 2 ^ 63.

Definition in_range (z : Z) : Prop := MinInt <= z <= MaxInt.

(** Two's complement wrap-around of a 64-bit result. *)
Definition wrap (z : Z) : Z := (z + 2 ^ 63) mod 2 ^ 64 - 2 ^ 63.

(** [i++] *)
Definition incr (i : Z) : Z := wrap (i + 1).

End GoInt.

(** ** Package [numerics] *)

Module numerics.

(** [func Sign(x float64) int] *)
Definition Sign (x : float64) : Z :=
  if (x <? S754_zero false)%f64 then -1
  else if (x >? S754_zero false)%f64 then 1
  else 0.

End numerics.

(** ** The log of what a run does *)

(** A call of one of the caller's closures. *)
Inductive call : Type :=
| CallFx (x : float64)       (* [fx(x)] *)
| CallDfx (x : float64).     (* [dfx(x)] *)

(** What [Finder.loop] does, besides arithmetic. *)
Inductive event : Type :=
| Call (c : call)            (* a call of [n.fx] or [n.dfx] *)
| MapGet (k : float64)       (* [_, alreadySeen := resultLookup[k]] *)
| MapPut (k : float64)       (* [resultLookup[k] = struct{}{}] *)
| Accepted (x : float64)     (* [x = xNew], line 114 *)
| ConvTest (x : float64).    (* the condition of line 122 is evaluated *)

(** A computation with a result and the log of what it did. *)
Definition W (E A : Type) : Type := A * list E.

Definition ret {E A} (a : A) : W E A := (a, []).

Definition bind {E A B} (m : W E A) (k : A -> W E B) : W E B :=
  let '(a, l1) := m in
  let '(b, l2) := k a in
  (b, l1 ++ l2).

Definition tell {E} (e : E) : W E unit := (tt, [e]).

Definition lift {A} (m : W call A) : W event A :=
  (fst m, map Call (snd m)).

Notation "x <- m ;; k" := (bind m (fun x => k))
  (at level 61, m at next level, right associativity).
Notation "m ;;; k" := (bind m (fun _ => k))
  (at level 61, right associativity).

(** ** Package [root] *)

Module root.

Import math.
Local Open Scope f64_scope.

(** *** Linear root finding *)

Definition bisectTolerance : float64 := c1e_11.
Definition bisectMaxIter : nat := 100.

(** One pass through the body of the [for] loop of [Bisect]: the value
    returned from inside the loop, or the limits for the next pass. *)
Definition Bisect_body (fx : float64 -> float64) (a b : float64)
  : W call (float64 + float64 * float64) :=
  let c := (a + b) / c2 in
  tell (CallFx c) ;;;
  let fxVal := fx c in
  if (fxVal == S754_zero false) || ((b - a) / c2 <? bisectTolerance) then
    ret (inl c)
  else
    tell (CallFx a) ;;;
    if (numerics.Sign fxVal =? numerics.Sign (fx a))%Z then
      ret (inr (c, b))
    else
      ret (inr (a, c)).

(** The loop [for i := 0; i < bisectMaxIter; i++], with [k] passes
    left, and the [return math.NaN()] behind it. *)
Fixpoint Bisect_loop (k : nat) (fx : float64 -> float64) (a b : float64)
  : W call float64 :=
  match k with
  | O => ret NaN
  | S k' =>
      r <- Bisect_body fx a b ;;
      match r with
      | inl c => ret c
      | inr (a', b') => Bisect_loop k' fx a' b'
      end
  end.

(** [func Bisect(fx func(x float64) float64, aInit, bInit float64) float64] *)
Definition Bisect (fx : float64 -> float64) (aInit bInit : float64)
  : W call float64 :=
  Bisect_loop bisectMaxIter fx aInit bInit.

(** *** Non-linear root finding *)

(** [type Method func(x float64, fx, dfx func(float64) float64) float64]:
    a method gets the two closures and may call them. *)
Definition Method : Type :=
  float64 -> (float64 -> W call float64) -> (float64 -> W call float64)
  -> W call float64.

(** [return x - fx(x)/dfx(x)] *)
Definition NewtonRaphson : Method := fun x fx dfx =>
  f <- fx x ;;
  d <- dfx x ;;
  ret (x - f / d).

(** [fxVal := fx(x); return x - fxVal/dfx(x-0.5*fxVal/dfx(x))] *)
Definition Homeier : Method := fun x fx dfx =>
  fxVal <- fx x ;;
  d <- dfx x ;;
  d' <- dfx (x - c0_5 * fxVal / d) ;;
  ret (x - fxVal / d').

(** A closure of the caller, seen from a method: calling it is logged. *)
Definition closure (tag : float64 -> call) (f : float64 -> float64)
  : float64 -> W call float64 :=
  fun x => tell (tag x) ;;; ret (f x).

(** [method(x, fx, dfx)] *)
Definition apply_method (m : Method) (x : float64) (fx dfx : float64 -> float64)
  : W call float64 :=
  m x (closure CallFx fx) (closure CallDfx dfx).

Record Finder : Type := {
  fx : float64 -> float64;
  dfx : float64 -> float64;
  method : Method;
  xMin : float64;
  xMax : float64;
  minIterations : Z;
  maxIterations : Z;
  targetPrecision : float64;
  useHeuristics : bool
}.

(** The loop variables of [Finder.loop]. *)
Record vars : Type := {
  x : float64;
  nIter : Z;
  resultLookup : list float64    (* the keys of the map *)
}.

Definition set_x (v : vars) (x' : float64) : vars :=
  {| x := x'; nIter := nIter v; resultLookup := resultLookup v |}.

(** A map with float64 keys finds a key by [==]. *)
Definition map_mem (k : float64) (m : list float64) : bool :=
  existsb (fun k' => k' == k) m.

Definition map_put (k : float64) (m : list float64) : list float64 :=
  if map_mem k m then m else k :: m.

(** Line 110: [resultLookup[k] = struct{}{}]. *)
Definition remember (v : vars) (k : float64) : vars :=
  {| x := x v; nIter := nIter v; resultLookup := map_put k (resultLookup v) |}.

(** How one pass through the body of the [for] loop ends. *)
Inductive outcome : Type :=
| Continue (v : vars)      (* [continue], or the end of the body *)
| Break (v : vars)         (* [break], followed by [return x] *)
| ReturnNaN.               (* [return math.NaN()] *)

(** Lines 114 and 115: [x = xNew; nIter++]. *)
Definition advance (v : vars) (xNew : float64) : vars :=
  {| x := xNew; nIter := GoInt.incr (nIter v);
     resultLookup := resultLookup v |}.

(** Lines 114 to 125: the assignment, the counter and the test. *)
Definition accept (n : Finder) (v : vars) (xNew : float64)
  : W event outcome :=
  tell (Accepted xNew) ;;;
  let v' := advance v xNew in
  if (nIter v' >=? minIterations n)%Z then
    tell (ConvTest xNew) ;;;
    f <- lift (closure CallFx (fx n) xNew) ;;
    if (Abs f <? targetPrecision n) || (nIter v' >=? maxIterations n)%Z then
      ret (Break v')
    else
      ret (Continue v')
  else
    ret (Continue v').

(** Lines 84 to 112: the heuristics, and what follows them. *)
Definition heuristics (n : Finder) (v : vars) (xNew : float64)
  : W event outcome :=
  if useHeuristics n then
    if IsInf xNew 0 then
      if IsInf xNew 1 then
        ret (Continue (set_x v (x v + (c0_1 * x v + c0_1))))
      else
        ret (Continue (set_x v (x v - (c0_1 * x v - c0_1))))
    else if Abs (xNew - x v) >? c1e_15 then
      tell (MapGet xNew) ;;;
      if map_mem xNew (resultLookup v) then
        if xNew != x v then
          ret (Continue (set_x v ((xNew + x v) / c2)))
        else
          ret (Continue (set_x v (x v + (c0_1 * x v + c0_1))))
      else
        tell (MapPut xNew) ;;;
        accept n (remember v xNew) xNew
    else
      accept n v xNew
  else
    accept n v xNew.

(** Lines 77 to 80, and what follows them. *)
Definition nan_guard (n : Finder) (v : vars) (xNew : float64)
  : W event outcome :=
  if IsNaN xNew then ret ReturnNaN else heuristics n v xNew.

(** Line 60: [n.method(x, n.fx, n.dfx)]. *)
Definition candidate (n : Finder) (v : vars) : W call float64 :=
  apply_method (method n) (x v) (fx n) (dfx n).

(** Lines 62 to 75, and what follows them. *)
Definition excess_guard (n : Finder) (v : vars) (xNew : float64)
  : W event outcome :=
  if negb (IsInf xNew 0) then
    if xNew >? xMax n then
      ret (Continue (set_x v (c0_5 * (x v + xMax n))))
    else if xNew <? xMin n then
      ret (Continue (set_x v (c0_5 * (x v + xMin n))))
    else
      nan_guard n v xNew
  else
    nan_guard n v xNew.

(** The body of the [for] loop, lines 59 to 125. *)
Definition round (n : Finder) (v : vars) : W event outcome :=
  xNew <- lift (candidate n v) ;;
  excess_guard n v xNew.

(** [rounds k n v]: at most [k] passes through the loop body. *)
Fixpoint rounds (k : nat) (n : Finder) (v : vars) : W event outcome :=
  match k with
  | O => ret (Continue v)
  | S k' =>
      o <- round n v ;;
      match o with
      | Continue v' => rounds k' n v'
      | _ => ret o
      end
  end.

(** What the function returns when the loop is left. *)
Definition returned (o : outcome) : option float64 :=
  match o with
  | Continue _ => None
  | Break v => Some (x v)
  | ReturnNaN => Some NaN
  end.

Definition init (xInit : float64) : vars :=
  {| x := xInit; nIter := 0; resultLookup := [] |}.

(** [func (n *Finder) loop(xInit float64) float64], run for at most
    [fuel] rounds: [None] when the loop has not been left by then. *)
Definition loop (fuel : nat) (n : Finder) (xInit : float64)
  : W event (option float64) :=
  o <- rounds fuel n (init xInit) ;;
  ret (returned o).

(** The Finder that [Find] builds before the options are executed. *)
Definition defaults (fx dfx : float64 -> float64) : Finder :=
  {| fx := fx; dfx := dfx; method := NewtonRaphson;
     xMin := SFopp MaxFloat64; xMax := MaxFloat64;
     minIterations := 5; maxIterations := 25;
     targetPrecision := c1e_9; useHeuristics := false |}.

(** A functional option [func(n *Finder)] changes the Finder it is given. *)
Definition option_fn : Type := Finder -> Finder.

Definition configure (fx dfx : float64 -> float64) (options : list option_fn)
  : Finder :=
  fold_left (fun obj option => option obj) options (defaults fx dfx).

(** [func Find(fx, dfx func(x float64) float64, xInit float64,
               options ...func(n *Finder)) float64] *)
Definition Find (fuel : nat) (fx dfx : float64 -> float64)
  (xInit : float64) (options : list option_fn) : W event (option float64) :=
  loop fuel (configure fx dfx options) xInit.

(** The options of options.go. *)
Definition WithMinIterations (nIterations : Z) : option_fn := fun n =>
  {| fx := fx n; dfx := dfx n; method := method n;
     xMin := xMin n; xMax := xMax n;
     minIterations := nIterations; maxIterations := maxIterations n;
     targetPrecision := targetPrecision n; useHeuristics := useHeuristics n |}.

Definition WithMaxIterations (nIterations : Z) : option_fn := fun n =>
  {| fx := fx n; dfx := dfx n; method := method n;
     xMin := xMin n; xMax := xMax n;
     minIterations := minIterations n; maxIterations := nIterations;
     targetPrecision := targetPrecision n; useHeuristics := useHeuristics n |}.

Definition WithTargetPrecision (targetPrecision : float64) : option_fn := fun n =>
  {| fx := fx n; dfx := dfx n; method := method n;
     xMin := xMin n; xMax := xMax n;
     minIterations := minIterations n; maxIterations := maxIterations n;
     targetPrecision := targetPrecision; useHeuristics := useHeuristics n |}.

Definition WithMethod (method : Method) : option_fn := fun n =>
  {| fx := fx n; dfx := dfx n; method := method;
     xMin := xMin n; xMax := xMax n;
     minIterations := minIterations n; maxIterations := maxIterations n;
     targetPrecision := targetPrecision n; useHeuristics := useHeuristics n |}.

Definition WithLimits (xMin xMax : float64) : option_fn := fun n =>
  {| fx := fx n; dfx := dfx n; method := method n;
     xMin := xMin; xMax := xMax;
     minIterations := minIterations n; maxIterations := maxIterations n;
     targetPrecision := targetPrecision n; useHeuristics := useHeuristics n |}.

Definition WithHeuristics : option_fn := fun n =>
  {| fx := fx n; dfx := dfx n; method := method n;
     xMin := xMin n; xMax := xMax n;
     minIterations := minIterations n; maxIterations := maxIterations n;
     targetPrecision := targetPrecision n; useHeuristics := true |}.

End root.

(** ** Reading a log *)

(** The iterates that were accepted, in the order of their acceptance. *)
Fixpoint accepted (tr : list event) : list float64 :=
  match tr with
  | [] => []
  | Accepted x :: tr' => x :: accepted tr'
  | _ :: tr' => accepted tr'
  end.

(** The number of accepted steps. *)
Definition accepted_count (tr : list event) : Z :=
  Z.of_nat (length (accepted tr)).

(** ** The ways through the loop body *)

Module Paths.

Import math root.
Local Open Scope f64_scope.

(** Line 122, on the variables behind the assignment: the condition of
    the [break]. *)
Definition converged (n : Finder) (v : vars) : bool :=
  (Abs (fx n (x v)) <? targetPrecision n) || (nIter v >=? maxIterations n)%Z.

(** The three ways through lines 114 to 125. *)
Inductive accept_result (n : Finder) (v : vars) (xNew : float64)
  : outcome -> list event -> Prop :=
| Below :
    (nIter (advance v xNew) < minIterations n)%Z ->
    accept_result n v xNew (Continue (advance v xNew)) [Accepted xNew]
| Converged :
    (minIterations n <= nIter (advance v xNew))%Z ->
    converged n (advance v xNew) = true ->
    accept_result n v xNew (Break (advance v xNew))
      [Accepted xNew; ConvTest xNew; Call (CallFx xNew)]
| Unconverged :
    (minIterations n <= nIter (advance v xNew))%Z ->
    converged n (advance v xNew) = false ->
    accept_result n v xNew (Continue (advance v xNew))
      [Accepted xNew; ConvTest xNew; Call (CallFx xNew)].

(** The ways through the loop body after the method has produced [xNew]:
    a retry, the return of NaN, or an acceptance. *)
Inductive round_result (n : Finder) (v : vars) (xNew : float64)
  : outcome -> list event -> Prop :=
| Retried (x' : float64) (pre : list event) :
    pre = [] \/ pre = [MapGet xNew] ->
    round_result n v xNew (Continue (set_x v x')) pre
| Aborted :
    IsNaN xNew = true ->
    round_result n v xNew ReturnNaN []
| Passed (v0 : vars) (pre acc : list event) (o : outcome) :
    (v0 = v /\ pre = []) \/
    (v0 = remember v xNew /\ pre = [MapGet xNew; MapPut xNew]) ->
    IsNaN xNew = false ->
    (IsInf xNew 0 = false ->
     (xNew >? xMax n) = false /\ (xNew <? xMin n) = false) ->
    accept_result n v0 xNew o acc ->
    round_result n v xNew o (pre ++ acc).

(** The convergence condition is only evaluated behind [c] accepted
    steps with [minIterations <= c]; [c] counts on from the given value. *)
Fixpoint guarded (minIterations c : Z) (tr : list event) : Prop :=
  match tr with
  | [] => True
  | Accepted _ :: tr' => guarded minIterations (c + 1) tr'
  | ConvTest _ :: tr' => (minIterations <= c)%Z /\ guarded minIterations c tr'
  | _ :: tr' => guarded minIterations c tr'
  end.

(** What the guards of lines 62 to 80 let pass: no NaN, and no number
    other than an infinity that exceeds [xMax] or is below [xMin]. *)
Definition passes_guards (n : Finder) (y : float64) : Prop :=
  IsNaN y = false /\
  (IsInf y 0 = false -> (y >? xMax n) = false /\ (y <? xMin n) = false).

(** An option that leaves the closure [fx] of the Finder alone, as the
    options of options.go do. *)
Definition keeps_fx (o : option_fn) : Prop :=
  forall m : Finder, fx (o m) = fx m.

(** The variables with which a pass through the loop body ends. *)
Definition vars_of (o : outcome) : option vars :=
  match o with
  | Continue v | Break v => Some v
  | ReturnNaN => None
  end.

(** A pass through the loop body on the variables [v]: either nothing is
    accepted, and the loop returns NaN or starts the next pass with another
    [x] and the same counter; or the candidate is accepted, and it is the
    new [x] under a counter that is one more. *)
Definition retry_or_accept (n : Finder) (v : vars) : Prop :=
  let o := fst (round n v) in
  let tr := snd (round n v) in
  let xNew := fst (candidate n v) in
  (accepted tr = [] /\
   (o = ReturnNaN \/ exists x', o = Continue (set_x v x')))
  \/
  (accepted tr = [xNew] /\
   exists v', vars_of o = Some v' /\ x v' = xNew /\
              nIter v' = (nIter v + 1)%Z).

End Paths.

(** ** The bisection as the specification describes it *)

Module BisectSpec.

Import math.
Local Open Scope f64_scope.

(** The limits [(a, b)] of an iteration. *)
Definition bracket : Type := float64 * float64.

(** [c = (a+b)/2] *)
Definition midpoint (ab : bracket) : float64 := (fst ab + snd ab) / c2.

(** [fx(c) == 0] exactly, or the half-width [(b-a)/2] is below 1e-11. *)
Definition stops (fx : float64 -> float64) (ab : bracket) : bool :=
  (fx (midpoint ab) == S754_zero false) || ((snd ab - fst ab) / c2 <? c1e_11).

(** [a] moves to [c] when the sign of [fx(c)] is the sign of [fx(a)], and
    [b] moves to [c] otherwise. *)
Definition narrow (fx : float64 -> float64) (ab : bracket) : bracket :=
  let c := midpoint ab in
  if (numerics.Sign (fx c) =? numerics.Sign (fx (fst ab)))%Z
  then (c, snd ab) else (fst ab, c).

(** The limits at the start of iteration [i] (counted from 0). *)
Fixpoint limits (fx : float64 -> float64) (ab : bracket) (i : nat) : bracket :=
  match i with
  | O => ab
  | S i' => limits fx (narrow fx ab) i'
  end.

(** The calls of an iteration that does not return: [fx(c)], then [fx(a)]. *)
Definition calls (ab : bracket) : list call :=
  [CallFx (midpoint ab); CallFx (fst ab)].

End BisectSpec.

(** ** The objects of the calls of [Find] *)

Module Store.

Import math root.

(** What the calls made so far have allocated: the Finders behind the
    pointers [obj] and the maps behind the references [resultLookup].  A
    pointer or a reference is the index of its object; an object stays
    where it is. *)
Record heap : Type := {
  finders : list Finder;
  maps : list (list float64)
}.

(** The assignment to the object at an index. *)
Fixpoint update {A : Type} (i : nat) (a : A) (l : list A) : list A :=
  match l, i with
  | [], _ => []
  | _ :: l', O => a :: l'
  | b :: l', S i' => b :: update i' a l'
  end.

(** [obj := &Finder{...}]: a new object, behind a pointer that was not
    in use. *)
Definition new_Finder (n : Finder) (h : heap) : nat * heap :=
  (length (finders h), {| finders := finders h ++ [n]; maps := maps h |}).

(** [make(map[float64]struct{})]: a new map without keys, behind a
    reference that was not in use. *)
Definition make_map (h : heap) : nat * heap :=
  (length (maps h), {| finders := finders h; maps := maps h ++ [[]] |}).

(** [option(obj)]: the assignments of the option go to the Finder behind
    the pointer. *)
Definition execute (o : option_fn) (obj : nat) (h : heap) : option heap :=
  match nth_error (finders h) obj with
  | Some n =>
      Some {| finders := update obj (o n) (finders h); maps := maps h |}
  | None => None
  end.

(** [for _, option := range options { option(obj) }] *)
Definition execute_all (options : list option_fn) (obj : nat) (h : heap)
  : option heap :=
  fold_left (fun s o => match s with
                        | Some h' => execute o obj h'
                        | None => None
                        end) options (Some h).

(** The loop variables of a pass: [x], [nIter], and under [resultLookup]
    the map behind the reference. *)
Definition view (x : float64) (nIter : Z) (ref : nat) (h : heap)
  : option vars :=
  match nth_error (maps h) ref with
  | Some m => Some {| x := x; nIter := nIter; resultLookup := m |}
  | None => None
  end.

(** What a pass has stored in the map (line 110) is in the object behind
    the reference; a pass that returns NaN has not stored anything. *)
Definition write_back (ref : nat) (o : outcome) (h : heap) : heap :=
  match o with
  | Continue v | Break v =>
      {| finders := finders h; maps := update ref (resultLookup v) (maps h) |}
  | ReturnNaN => h
  end.

(** At most [k] passes through the loop body, for the receiver behind the
    pointer [obj] and with the map behind the reference [ref]: how the last
    pass ended, the log, and the objects. *)
Fixpoint rounds_at (k : nat) (obj ref : nat) (x : float64) (nIter : Z)
  (h : heap) : option (outcome * list event * heap) :=
  match nth_error (finders h) obj, view x nIter ref h with
  | Some n, Some v =>
      match k with
      | O => Some (Continue v, [], h)
      | S k' =>
          let (o, tr) := round n v in
          let h' := write_back ref o h in
          match o with
          | Continue v' =>
              match rounds_at k' obj ref (root.x v') (root.nIter v') h' with
              | Some (o', tr', h'') => Some (o', tr ++ tr', h'')
              | None => None
              end
          | _ => Some (o, tr, h')
          end
      end
  | _, _ => None
  end.

(** [func (n *Finder) loop(xInit float64) float64] on the objects: lines
    53 to 55 make the variables and the map of this call. *)
Definition loop_at (fuel : nat) (obj : nat) (xInit : float64) (h : heap)
  : option (option float64 * list event * heap) :=
  let (ref, h0) := make_map h in
  match rounds_at fuel obj ref xInit 0 h0 with
  | Some (o, tr, h') => Some (returned o, tr, h')
  | None => None
  end.

(** [func Find(fx, dfx func(x float64) float64, xInit float64,
               options ...func(n *Finder)) float64] on the objects. *)
Definition Find_at (fuel : nat) (fx dfx : float64 -> float64)
  (xInit : float64) (options : list option_fn) (h : heap)
  : option (option float64 * list event * heap) :=
  let (obj, h0) := new_Finder (defaults fx dfx) h in
  match execute_all options obj h0 with
  | Some h1 => loop_at fuel obj xInit h1
  | None => None
  end.

(** Whether a call has returned. *)
Definition returns (r : option (option float64 * list event * heap)) : bool :=
  match r with
  | Some (Some _, _, _) => true
  | _ => false
  end.

End Store.

(** ** The options of options.go, as data *)

Module Options.

Import math root.

(** A call of one of the six option constructors. *)
Inductive opt : Type :=
| MinIterations (nIterations : Z)
| MaxIterations (nIterations : Z)
| TargetPrecision (targetPrecision : float64)
| UseMethod (method : Method)
| Limits (xMin xMax : float64)
| Heuristics.

(** The function the constructor returns. *)
Definition option_of (o : opt) : option_fn :=
  match o with
  | MinIterations k => WithMinIterations k
  | MaxIterations k => WithMaxIterations k
  | TargetPrecision p => WithTargetPrecision p
  | UseMethod m => WithMethod m
  | Limits lo hi => WithLimits lo hi
  | Heuristics => WithHeuristics
  end.

(** The last value that a list of options gives to a field, [d] when no
    option of the list sets the field; [pick] tells what an option sets. *)
Fixpoint last_setting {A : Type} (pick : opt -> option A) (d : A)
  (os : list opt) : A :=
  match os with
  | [] => d
  | o :: os' =>
      last_setting pick (match pick o with Some a => a | None => d end) os'
  end.

Definition sets_min (o : opt) : option Z :=
  match o with MinIterations k => Some k | _ => None end.
Definition sets_max (o : opt) : option Z :=
  match o with MaxIterations k => Some k | _ => None end.
Definition sets_precision (o : opt) : option float64 :=
  match o with TargetPrecision p => Some p | _ => None end.
Definition sets_method (o : opt) : option Method :=
  match o with UseMethod m => Some m | _ => None end.
Definition sets_xMin (o : opt) : option float64 :=
  match o with Limits lo _ => Some lo | _ => None end.
Definition sets_xMax (o : opt) : option float64 :=
  match o with Limits _ hi => Some hi | _ => None end.
Definition sets_heuristics (o : opt) : option bool :=
  match o with Heuristics => Some true | _ => None end.

End Options.

(** ** Bounds on the rounds of the loop *)

Module Rounds.

Import math root.

(** The number of accepted steps behind which the loop is left at the
    latest: the larger of [minIterations] and [maxIterations], and 1. *)
Definition most_steps (n : Finder) : nat :=
  Z.to_nat (Z.max 1 (Z.max (minIterations n) (maxIterations n))).

(** The number of accepted steps behind which the convergence condition is
    evaluated for the first time. *)
Definition first_test (n : Finder) : nat :=
  Z.to_nat (Z.max 1 (minIterations n)).

(** A float64 of the machine: the mantissa and the exponent of a finite
    number are those of binary64. *)
Definition is_binary64 (a : float64) : bool := valid_binary prec emax a.

End Rounds.

(** ** Package [numerics]: the beta functions *)

Module numerics_beta.

Import math.
Local Open Scope f64_scope.

(** [math.SmallestNonzeroFloat64 = 0x1p-1022 * 0x1p-52] *)
Definition SmallestNonzeroFloat64 : float64 := S754_finite false 1 (-1074).

Definition betaEpsilon : float64 :=
  S754_finite false 4753689750855860 (-97).   (* 3e-14 = 0x1.0e3742a89c1f4p-45 *)
Definition betaMaxIterations : nat := 200.

Definition c0 : float64 := S754_zero false.   (* 0, 0.0 *)
Definition c1 : float64 := of_Z 1.            (* 1, 1.0 *)

(** [func smallestNonZero(val float64) float64] *)
Definition smallestNonZero (val : float64) : float64 :=
  if Abs val <? SmallestNonzeroFloat64 then SmallestNonzeroFloat64 else val.

(** The variables [c], [d] and [h] of [betacf]. *)
Record fraction : Type := { c : float64; d : float64; h : float64 }.

(** One pass through the body of the [for] loop of [betacf], for the
    counter [m]: the value returned from inside the loop, or the variables
    for the next pass. *)
Definition betacf_body (x a b : float64) (m : Z) (s : fraction)
  : float64 + fraction :=
  let mf := of_Z m in
  let numer := mf * (b - mf) * x / ((a + c2 * mf - c1) * (a + c2 * mf)) in
  let d1 := c1 / smallestNonZero (c1 + numer * d s) in
  let c1' := smallestNonZero (c1 + numer / c s) in
  let h1 := h s * (d1 * c1') in
  let numer := SFopp (a + mf) * (a + b + mf) * x
               / ((a + c2 * mf) * (a + c2 * mf + c1)) in
  let d2 := c1 / smallestNonZero (c1 + numer * d1) in
  let c2' := smallestNonZero (c1 + numer / c1') in
  let hfac := d2 * c2' in
  let h2 := h1 * hfac in
  if Abs (hfac - c1) <? betaEpsilon then inl h2
  else inr {| c := c2'; d := d2; h := h2 |}.

(** The loop [for m := ...; m <= betaMaxIterations; m++] with [k] passes
    left, and the [return math.NaN()] behind it. *)
Fixpoint betacf_loop (k : nat) (x a b : float64) (m : Z) (s : fraction)
  : float64 :=
  match k with
  | O => NaN
  | S k' =>
      match betacf_body x a b m s with
      | inl h => h
      | inr s' => betacf_loop k' x a b (m + 1) s'
      end
  end.

(** [func betacf(x, a, b float64) float64] *)
Definition betacf (x a b : float64) : float64 :=
  let d := c1 / smallestNonZero (c1 - (a + b) * x / (a + c1)) in
  betacf_loop betaMaxIterations x a b 1 {| c := c1; d := d; h := d |}.

Section Transcendental.

(** [math.Exp], [math.Log] and [math.Lgamma] of Go's library. *)
Variables Exp Log : float64 -> float64.
Variable math_Lgamma : float64 -> float64 * Z.

(** [func Lgamma(x float64) float64] *)
Definition Lgamma (x : float64) : float64 := fst (math_Lgamma x).

(** [func Beta(a, b float64) float64] *)
Definition Beta (a b : float64) : float64 :=
  Exp (Lgamma a + Lgamma b - Lgamma (a + b)).

(** [func BetaIncompleteRegular(x, a, b float64) float64] *)
Definition BetaIncompleteRegular (x a b : float64) : float64 :=
  if (x <? c0) || (x >? c1) then NaN
  else
    let bt :=
      if (c0 <? x) && (x <? c1) then
        Exp (Lgamma (a + b) - Lgamma a - Lgamma b + a * Log x + b * Log (c1 - x))
      else c0 in
    if x <? (a + c1) / (a + b + c2) then bt * betacf x a b / a
    else c1 - bt * betacf (c1 - x) b a / b.

(** [func BetaIncomplete(x, a, b float64) float64] *)
Definition BetaIncomplete (x a b : float64) : float64 :=
  BetaIncompleteRegular x a b * Beta a b.

(** [func Binomial(x, k, n float64) float64] *)
Definition Binomial (x k n : float64) : float64 :=
  Exp ((n - k) * Log (c1 - x) + k * Log x).

End Transcendental.

End numerics_beta.

(** ** The histogram [H1D] *)

Module hist.

Import math.
Local Open Scope f64_scope.

(** The run-time panics of the histogram. *)
Inductive panic : Type :=
| IndexOutOfRange          (* an index outside of a slice *)
| MakeSliceLen             (* [make] with a negative length *)
| OneWeight.               (* "must specify no or exactly one weight" *)

(** A computation that returns or panics. *)
Inductive result (A : Type) : Type :=
| Ok (a : A)
| Panics (p : panic).

Arguments Ok {A} a.
Arguments Panics {A} p.

Definition rbind {A B : Type} (r : result A) (k : A -> result B) : result B :=
  match r with
  | Ok a => k a
  | Panics p => Panics p
  end.

Notation "x <-- m ;; k" := (rbind m (fun x => k))
  (at level 61, m at next level, right associativity).

(** [s[i]] *)
Definition index (s : list float64) (i : Z) : result float64 :=
  if (0 <=? i)%Z && (i <? Z.of_nat (length s))%Z
  then Ok (nth (Z.to_nat i) s (S754_zero false))
  else Panics IndexOutOfRange.

Fixpoint set_nth (i : nat) (a : float64) (s : list float64) : list float64 :=
  match s, i with
  | [], _ => []
  | _ :: t, O => a :: t
  | b :: t, S i' => b :: set_nth i' a t
  end.

(** [s[i] = a] *)
Definition assign (s : list float64) (i : Z) (a : float64)
  : result (list float64) :=
  if (0 <=? i)%Z && (i <? Z.of_nat (length s))%Z
  then Ok (set_nth (Z.to_nat i) a s)
  else Panics IndexOutOfRange.

(** [make([]float64, len)]: zeros; a negative length panics.  (The limits
    of the memory are not modelled.) *)
Definition make (len : Z) : result (list float64) :=
  if (len <? 0)%Z then Panics MakeSliceLen
  else Ok (repeat (S754_zero false) (Z.to_nat len)).

(** [for i := i0; i < i0 + k; i++ { body }], for a body without [break]
    and [return]. *)
Fixpoint for_loop {S : Type} (k : nat) (i : Z) (body : Z -> S -> result S)
  (s : S) : result S :=
  match k with
  | O => Ok s
  | S k' => s' <-- body i s ;; for_loop k' (i + 1)%Z body s'
  end.

Record H1D : Type := {
  nEntries : Z;
  nBins : Z;
  sumOfWeights : float64;
  binContent : list float64;
  binVariance : list float64;
  bins : list float64
}.

(** [func NewH1D(n int, xMin, xMax float64) *H1D] *)
Definition NewH1D (n : Z) (xMin xMax : float64) : result H1D :=
  content <-- make (GoInt.wrap (n + 2)) ;;
  variance <-- make (GoInt.wrap (n + 2)) ;;
  edges <-- make (GoInt.wrap (n + 1)) ;;
  let step := (xMax - xMin) / of_Z n in
  edges' <-- for_loop (Z.to_nat (GoInt.wrap (n + 1))) 0
               (fun i edges => assign edges i (xMin + of_Z i * step)) edges ;;
  Ok {| nEntries := 0; nBins := n; sumOfWeights := S754_zero false;
        binContent := content; binVariance := variance; bins := edges' |}.

(** [NBins], [NEntries] and [Sum] return the fields. *)
Definition NBins (h : H1D) : Z := nBins h.
Definition NEntries (h : H1D) : Z := nEntries h.
Definition Sum (h : H1D) : float64 := sumOfWeights h.

(** [return h.bins[0]] *)
Definition XMin (h : H1D) : result float64 := index (bins h) 0.

(** [return h.bins[h.nBins]] *)
Definition XMax (h : H1D) : result float64 := index (bins h) (nBins h).

(** [return h.binContent[bin]] *)
Definition BinContent (h : H1D) (bin : Z) : result float64 :=
  index (binContent h) bin.

(** [return h.binVariance[bin]] *)
Definition BinVariance (h : H1D) (bin : Z) : result float64 :=
  index (binVariance h) bin.

(** [-1e99 = -0x1.d42aea2879f2ep+328] *)
Definition least : float64 := S754_finite true 8236092143148846 276.

(** The body of the loop of [MaximumBin] on [(max, maxBin)]. *)
Definition MaximumBin_body (h : H1D) (i : Z) (s : float64 * Z)
  : result (float64 * Z) :=
  c <-- index (binContent h) (GoInt.wrap (i + 1)) ;;
  if c >? fst s then Ok (c, GoInt.wrap (i + 1)) else Ok s.

(** [func (h *H1D) MaximumBin() int] *)
Definition MaximumBin (h : H1D) : result Z :=
  s <-- for_loop (Z.to_nat (Z.of_nat (length (bins h)) - 1)) 0
          (MaximumBin_body h) (least, 0%Z) ;;
  Ok (snd s).

(** [return (h.bins[bin-1] + h.bins[bin]) / 2.0] *)
Definition BinCenter (h : H1D) (bin : Z) : result float64 :=
  lo <-- index (bins h) (GoInt.wrap (bin - 1)) ;;
  hi <-- index (bins h) bin ;;
  Ok ((lo + hi) / c2).

(** [return h.BinCenter(h.MaximumBin())] *)
Definition Mode (h : H1D) : result float64 :=
  bin <-- MaximumBin h ;;
  BinCenter h bin.

(** [func (h *H1D) SetBinContent(bin int, sumOfWeights float64)] *)
Definition SetBinContent (h : H1D) (bin : Z) (sum : float64) : result H1D :=
  old <-- index (binContent h) bin ;;
  content <-- assign (binContent h) bin sum ;;
  Ok {| nEntries := nEntries h; nBins := nBins h;
        sumOfWeights := sumOfWeights h + (sum - old);
        binContent := content; binVariance := binVariance h;
        bins := bins h |}.

(** [func (h *H1D) SetBinVariance(bin int, variance float64)] *)
Definition SetBinVariance (h : H1D) (bin : Z) (variance : float64)
  : result H1D :=
  variances <-- assign (binVariance h) bin variance ;;
  Ok {| nEntries := nEntries h; nBins := nBins h;
        sumOfWeights := sumOfWeights h;
        binContent := binContent h; binVariance := variances;
        bins := bins h |}.

(** [h.binContent[bin] += w] *)
Definition add_content (h : H1D) (bin : Z) (w : float64) : result H1D :=
  old <-- index (binContent h) bin ;;
  content <-- assign (binContent h) bin (old + w) ;;
  Ok {| nEntries := nEntries h; nBins := nBins h;
        sumOfWeights := sumOfWeights h;
        binContent := content; binVariance := binVariance h;
        bins := bins h |}.

(** The loop of [Fill] over the regular bins but the last one, with [k]
    passes left: the histogram with which [Fill] returns from inside the
    loop, or nothing when the loop ends. *)
Fixpoint Fill_scan (k : nat) (h : H1D) (val w : float64) (i : Z)
  : result (option H1D) :=
  match k with
  | O => Ok None
  | S k' =>
      lo <-- index (bins h) i ;;
      if lo <=? val then
        hi <-- index (bins h) (GoInt.wrap (i + 1)) ;;
        if val <? hi then
          h' <-- add_content h (GoInt.wrap (i + 1)) w ;;
          Ok (Some h')
        else Fill_scan k' h val w (i + 1)%Z
      else Fill_scan k' h val w (i + 1)%Z
  end.

(** [w := 1.0; if len(weight) == 1 { w = weight[0] }] *)
Definition the_weight (weight : list float64) : float64 :=
  match weight with [w0] => w0 | _ => of_Z 1 end.

(** [h.nEntries++; h.sumOfWeights += w] *)
Definition counted (h : H1D) (w : float64) : H1D :=
  {| nEntries := GoInt.incr (nEntries h); nBins := nBins h;
     sumOfWeights := sumOfWeights h + w;
     binContent := binContent h; binVariance := binVariance h;
     bins := bins h |}.

(** [func (h *H1D) Fill(val float64, weight ...float64)] *)
Definition Fill (h : H1D) (val : float64) (weight : list float64)
  : result H1D :=
  if (1 <? length weight)%nat then Panics OneWeight
  else
    let w := the_weight weight in
    let h := counted h w in
    first <-- index (bins h) 0 ;;
    if val <? first then add_content h 0 w
    else
      last <-- index (bins h) (nBins h) ;;
      if val >? last then add_content h (GoInt.wrap (nBins h + 1)) w
      else
        r <-- Fill_scan (Z.to_nat (GoInt.wrap (nBins h - 1))) h val w 0 ;;
        match r with
        | Some h' => Ok h'
        | None =>
            lo <-- index (bins h) (GoInt.wrap (nBins h - 1)) ;;
            if lo <=? val then
              hi <-- index (bins h) (nBins h) ;;
              if val <=? hi then add_content h (nBins h) w else Ok h
            else Ok h
        end.

(** The body of the loop of [Scale] on the two slices. *)
Definition Scale_body (scale : float64) (i : Z)
  (s : list float64 * list float64) : result (list float64 * list float64) :=
  c <-- index (fst s) i ;;
  content <-- assign (fst s) i (c * scale) ;;
  v <-- index (snd s) i ;;
  variances <-- assign (snd s) i (v * scale) ;;
  Ok (content, variances).

(** [func (h *H1D) Scale(scale float64)] *)
Definition Scale (h : H1D) (scale : float64) : result H1D :=
  s <-- for_loop (Z.to_nat (GoInt.wrap (nBins h + 2))) 0 (Scale_body scale)
          (binContent h, binVariance h) ;;
  Ok {| nEntries := nEntries h; nBins := nBins h;
        sumOfWeights := sumOfWeights h * scale;
        binContent := fst s; binVariance := snd s; bins := bins h |}.

(** A histogram as [NewH1D] builds it for [n >= 0]: [n + 1] edges and
    [n + 2] contents and variances, the lengths being Go ints. *)
Definition well_formed (h : H1D) : Prop :=
  (0 <= nBins h)%Z /\ (nBins h + 2 <= GoInt.MaxInt)%Z /\
  Z.of_nat (length (bins h)) = (nBins h + 1)%Z /\
  Z.of_nat (length (binContent h)) = (nBins h + 2)%Z /\
  Z.of_nat (length (binVariance h)) = (nBins h + 2)%Z.

(** The contents after [w] has been added to the bin [j]. *)
Definition credited (content : list float64) (j : Z) (w : float64)
  : list float64 :=
  set_nth (Z.to_nat j) (nth (Z.to_nat j) content (S754_zero false) + w) content.

(** A histogram with other contents. *)
Definition with_content (h : H1D) (content : list float64) : H1D :=
  {| nEntries := nEntries h; nBins := nBins h;
     sumOfWeights := sumOfWeights h;
     binContent := content; binVariance := binVariance h; bins := bins h |}.

(** The content of the bin [j] and the edge [j], 0 outside of the slice. *)
Definition content_at (h : H1D) (j : Z) : float64 :=
  nth (Z.to_nat j) (binContent h) (S754_zero false).
Definition edge_at (h : H1D) (j : Z) : float64 :=
  nth (Z.to_nat j) (bins h) (S754_zero false).

End hist.

(** ** The histogram [H1D]: finding a bin *)

Module hist_find.

Import math hist.
Local Open Scope f64_scope.

(** The integer part of a finite number: the fraction is discarded. *)
Definition integer_part (f : float64) : Z :=
  match f with
  | S754_finite s m e =>
      let a := if (0 <=? e)%Z then (Zpos m * 2 ^ e)%Z
               else (Zpos m / 2 ^ (- e))%Z in
      if s then (- a)%Z else a
  | _ => 0%Z
  end.

Section Conversion.

(** What [int(f)] gives for NaN, for the infinities and for a number whose
    integer part is no [int]: Go leaves it to the implementation. *)
Variable int_of_other : float64 -> Z.

(** [int(f)] *)
Definition int_of_float64 (f : float64) : Z :=
  match f with
  | S754_zero _ => 0%Z
  | S754_finite _ _ _ =>
      if (GoInt.MinInt <=? integer_part f)%Z && (integer_part f <=? GoInt.MaxInt)%Z
      then integer_part f else int_of_other f
  | _ => int_of_other f
  end.

(** [func (h *H1D) FindBin(x float64) int] *)
Definition FindBin (h : H1D) (x : float64) : result Z :=
  lo <-- XMin h ;;
  if x <? lo then Ok 0%Z
  else
    hi <-- XMax h ;;
    if x >? hi then Ok (GoInt.wrap (nBins h + 1))
    else
      lo1 <-- XMin h ;;
      hi2 <-- XMax h ;;
      lo2 <-- XMin h ;;
      Ok (GoInt.wrap
            (1 + GoInt.wrap (nBins h * int_of_float64 ((x - lo1) / (hi2 - lo2))))).

(** [func (h *H1D) Interpolate(x float64) float64] *)
Definition Interpolate (h : H1D) (x : float64) : result float64 :=
  xBin <-- FindBin h x ;;
  first <-- BinCenter h 1 ;;
  if x <=? first then BinContent h 1
  else
    last <-- BinCenter h (NBins h) ;;
    if last <=? x then BinContent h (NBins h)
    else
      centre <-- BinCenter h xBin ;;
      if x <=? centre then
        y0 <-- BinContent h (GoInt.wrap (xBin - 1)) ;;
        x0 <-- BinCenter h (GoInt.wrap (xBin - 1)) ;;
        y1 <-- BinContent h xBin ;;
        x1 <-- BinCenter h xBin ;;
        Ok (y0 + (x - x0) * ((y1 - y0) / (x1 - x0)))
      else
        y0 <-- BinContent h xBin ;;
        x0 <-- BinCenter h xBin ;;
        y1 <-- BinContent h (GoInt.wrap (xBin + 1)) ;;
        x1 <-- BinCenter h (GoInt.wrap (xBin + 1)) ;;
        Ok (y0 + (x - x0) * ((y1 - y0) / (x1 - x0))).

End Conversion.

(** The position of [x] between the limits,
    [(x - XMin) / (XMax - XMin)]. *)
Definition position (h : H1D) (x : float64) : float64 :=
  (x - edge_at h 0) / (edge_at h (nBins h) - edge_at h 0).

(** The centre of the bin [j]. *)
Definition centre_of (h : H1D) (j : Z) : float64 :=
  (edge_at h (j - 1) + edge_at h j) / c2.

End hist_find.

(** ** A histogram for the examples *)

Module HistTests.

Import hist.

(** Four bins of width 1 from 0 to 4, as [NewH1D(4, 0, 4)] builds them. *)
Definition four_bins : H1D :=
  {| nEntries := 0; nBins := 4; sumOfWeights := S754_zero false;
     binContent := repeat (S754_zero false) 6;
     binVariance := repeat (S754_zero false) 6;
     bins := [S754_zero false; of_Z 1; of_Z 2; of_Z 3; of_Z 4] |}.

(** The same bins behind three entries, each with another weight. *)
Definition three_entries : H1D :=
  {| nEntries := 3; nBins := 4; sumOfWeights := of_Z 7;
     binContent := [S754_zero false; of_Z 1; of_Z 2; of_Z 4;
                    S754_zero false; S754_zero false];
     binVariance := [S754_zero false; of_Z 1; of_Z 4; of_Z 16;
                     S754_zero false; S754_zero false];
     bins := [S754_zero false; of_Z 1; of_Z 2; of_Z 3; of_Z 4] |}.

End HistTests.

(** ** Functions of the tests *)

Module Tests.

Local Open Scope f64_scope.

(** [x*x - 612] and its derivative [2 * x] (case SquareRoot2). *)
Definition square612 (x : float64) : float64 := x * x - of_Z 612.
Definition dsquare612 (x : float64) : float64 := of_Z 2 * x.

(** [1. - x*x] and its derivative [-2. * x] (case StationaryPoint). *)
Definition stationary (x : float64) : float64 := of_Z 1 - x * x.
Definition dstationary (x : float64) : float64 := of_Z (-2) * x.

(** [x*x*x - 2.*x + 2.] and its derivative [3*x*x - 2.] (case Cycle). *)
Definition cycle (x : float64) : float64 := x * x * x - of_Z 2 * x + of_Z 2.
Definition dcycle (x : float64) : float64 := of_Z 3 * x * x - of_Z 2.

(** [x - 5] and its derivative [1]. *)
Definition line5 (x : float64) : float64 := x - of_Z 5.
Definition dline5 (x : float64) : float64 := of_Z 1.

End Tests.

(** * Properties *)

(** ** Facts about float64 comparisons *)

Section Compare.

Lemma SFcompare_refl (a : float64) :
  is_nan a = false -> SFcompare a a = Some Eq.
Proof.
  destruct a as [s|s| |s m e]; simpl; try discriminate; intros _.
  - reflexivity.
  - destruct s; reflexivity.
  - rewrite Z.compare_refl.
    fold (Pos.compare m m). rewrite Pos.compare_refl.
    destruct s; reflexivity.
Qed.

Lemma IsNaN_is_nan (a : float64) : math.IsNaN a = is_nan a.
Proof.
  unfold math.IsNaN, neqb, SFeqb.
  destruct (is_nan a) eqn:E.
  - destruct a; try discriminate. reflexivity.
  - rewrite (SFcompare_refl a E). reflexivity.
Qed.

Lemma IsNaN_true (a : float64) : math.IsNaN a = true -> a = math.NaN.
Proof.
  rewrite IsNaN_is_nan. destruct a; simpl; intros; try discriminate; reflexivity.
Qed.

Lemma SFcompare_antisym (a b : float64) (c : comparison) :
  SFcompare a b = Some c -> SFcompare b a = Some (CompOpp c).
Proof.
  destruct a as [sa|sa| |sa ma ea], b as [sb|sb| |sb mb eb]; simpl;
    try discriminate;
    try (destruct sa; intros [= <-]; reflexivity);
    try (destruct sb; intros [= <-]; reflexivity);
    try (destruct sa, sb; intros [= <-]; reflexivity).
  intros [= <-]. f_equal.
  fold (Pos.compare ma mb). fold (Pos.compare mb ma).
  rewrite (Z.compare_antisym ea eb), (Pos.compare_antisym ma mb).
  destruct sa, sb, (ea ?= eb)%Z, (ma ?= mb)%positive; reflexivity.
Qed.

Lemma SFcompare_None (a b : float64) :
  SFcompare a b = None -> is_nan a = true \/ is_nan b = true.
Proof.
  destruct a, b; simpl; try discriminate; auto.
Qed.

(** A NaN exceeds nothing and is below nothing. *)
Lemma NaN_gtb (b : float64) : (math.NaN >? b)%f64 = false.
Proof. destruct b; reflexivity. Qed.

Lemma NaN_ltb (b : float64) : (math.NaN <? b)%f64 = false.
Proof. reflexivity. Qed.

(** [!(a > b)] gives [a <= b] when neither number is a NaN. *)
Lemma not_gtb_leb (a b : float64) :
  is_nan a = false -> is_nan b = false -> (a >? b)%f64 = false -> (a <=? b)%f64 = true.
Proof.
  unfold gtb, leb, SFltb, SFleb. intros Ha Hb.
  destruct (SFcompare a b) as [c|] eqn:E.
  - rewrite (SFcompare_antisym _ _ _ E). destruct c; simpl; intros; congruence.
  - apply SFcompare_None in E. destruct E; congruence.
Qed.

(** [a <= b] excludes [a > b]. *)
Lemma leb_not_gtb (a b : float64) :
  (a <=? b)%f64 = true -> (a >? b)%f64 = false.
Proof.
  unfold gtb, leb, SFltb, SFleb.
  destruct (SFcompare a b) as [c|] eqn:E; try discriminate.
  rewrite (SFcompare_antisym _ _ _ E). destruct c; simpl; intros; congruence.
Qed.

End Compare.

(** ** The sign function and NaN *)

Section SignFunction.

Import math root.
Local Open Scope f64_scope.

Lemma Sign_values (a : float64) :
  numerics.Sign a = (-1)%Z \/ numerics.Sign a = 0%Z \/ numerics.Sign a = 1%Z.
Proof.
  unfold numerics.Sign.
  destruct (a <? S754_zero false); [now left|].
  destruct (a >? S754_zero false); [now right; right | now right; left].
Qed.

(** C10. For every x that is NaN, [Sign x] is 0, the sign class of the two
    zeros (both comparisons of [Sign] are false).  In a pass of [Bisect]
    that does not return, a NaN value of [fx(a)] therefore takes part in
    the comparison of the signs as 0: the pass goes on with new limits,
    [(c, b)] when [Sign (fx c)] is 0 as well and [(a, c)] otherwise, and
    nothing reports the NaN. *)
Theorem Sign_of_NaN (x : float64) :
  IsNaN x = true ->
  (x <? S754_zero false) = false /\
  (x >? S754_zero false) = false /\
  numerics.Sign x = 0%Z /\
  numerics.Sign x = numerics.Sign (S754_zero false) /\
  numerics.Sign x = numerics.Sign (S754_zero true) /\
  forall (fx : float64 -> float64) (a b : float64),
    fx a = x ->
    let c := (a + b) / c2 in
    (fx c == S754_zero false) || ((b - a) / c2 <? bisectTolerance) = false ->
    Bisect_body fx a b =
      (if (numerics.Sign (fx c) =? 0)%Z then inr (c, b) else inr (a, c),
       [CallFx c; CallFx a]).
Proof.
  intros H. apply IsNaN_true in H. subst x.
  repeat split; try reflexivity.
  intros fx a b Ha c Hstop.
  unfold Bisect_body. fold c. rewrite Hstop, Ha.
  change (numerics.Sign NaN) with 0%Z.
  destruct (numerics.Sign (fx c) =? 0)%Z; reflexivity.
Qed.

Lemma Sign_of_NaN_witness :
  numerics.Sign NaN = 0%Z /\
  Bisect_body (fun _ => NaN) (of_Z 0) (of_Z 1)
  = (inr (of_Z 1 / c2, of_Z 1), [CallFx (of_Z 1 / c2); CallFx (of_Z 0)]).
Proof.
  destruct (Sign_of_NaN NaN eq_refl) as (_ & _ & H0 & _ & _ & HB).
  split; [exact H0|].
  exact (HB (fun _ => NaN) (of_Z 0) (of_Z 1) eq_refl eq_refl).
Defined.

End SignFunction.

(** ** The stepping methods *)

Section Stepping.

Import math root.
Local Open Scope f64_scope.

Variables (x : float64) (fx dfx : float64 -> float64).

Lemma NewtonRaphson_run :
  apply_method NewtonRaphson x fx dfx
  = (x - fx x / dfx x, [CallFx x; CallDfx x]).
Proof. reflexivity. Qed.

Lemma Homeier_run :
  apply_method Homeier x fx dfx
  = (x - fx x / dfx (x - c0_5 * fx x / dfx x),
     [CallFx x; CallDfx x; CallDfx (x - c0_5 * fx x / dfx x)]).
Proof. reflexivity. Qed.

(** A NaN operand makes the quotient and the difference NaN. *)
Lemma sub_div_NaN (f d : float64) :
  IsNaN f || IsNaN d = true -> IsNaN (x - f / d) = true.
Proof.
  rewrite !IsNaN_is_nan. intros H.
  assert (Hq : f / d = NaN).
  { destruct f, d; simpl in H; try discriminate; reflexivity. }
  rewrite Hq. destruct x; reflexivity.
Qed.

(** A zero divisor under a dividend that is neither zero nor NaN gives an
    infinite quotient, and a finite [x] minus it is infinite. *)
Lemma sub_div_zero (f d : float64) :
  (d == S754_zero false) = true ->
  (f == S754_zero false) = false -> IsNaN f = false ->
  is_finite x = true ->
  IsInf (x - f / d) 0 = true.
Proof.
  rewrite IsNaN_is_nan. intros Hd Hf Hn Hx.
  destruct d as [sd|sd| |sd md ed]; try discriminate;
    try (destruct sd; discriminate).
  destruct f as [sf|sf| |sf mf ef]; try discriminate;
    destruct x as [sx|sx| |sx mx ex]; try discriminate;
    simpl; destruct (xorb sf sd); reflexivity.
Qed.

End Stepping.

Section SteppingClaims.

Import math root.
Local Open Scope f64_scope.

(** The double root of [x * x] at 0: the derivative is 0 there, and the
    Newton-Raphson step is 0 - 0/0, which is NaN and not an infinity. *)
Lemma NewtonRaphson_zero_derivative_NaN :
  let fx := fun x : float64 => x * x in
  let dfx := fun x : float64 => c2 * x in
  let x := S754_zero false in
  (dfx x == S754_zero false) = true /\
  IsInf (fst (apply_method NewtonRaphson x fx dfx)) 0 = false /\
  IsNaN (fst (apply_method NewtonRaphson x fx dfx)) = true.
Proof. repeat split. Qed.

(** C6 (amended). [NewtonRaphson] calls [fx(x)], then [dfx(x)], and
    returns [x - fx(x)/dfx(x)].  The result is an infinity when
    [dfx(x) == 0], [fx(x)] is neither zero nor NaN and [x] is finite; it is
    NaN when [fx(x)] or [dfx(x)] is NaN.  [Homeier] calls [fx(x)] once,
    [f0], then [dfx(x)] and [dfx(m)] for [m = x - 0.5*f0/dfx(x)], and
    returns [x - f0/dfx(m)]. *)
Theorem stepping_methods (x : float64) (fx dfx : float64 -> float64) :
  apply_method NewtonRaphson x fx dfx
    = (x - fx x / dfx x, [CallFx x; CallDfx x]) /\
  ((dfx x == S754_zero false) = true ->
   (fx x == S754_zero false) = false -> IsNaN (fx x) = false ->
   is_finite x = true ->
   IsInf (fst (apply_method NewtonRaphson x fx dfx)) 0 = true) /\
  (IsNaN (fx x) || IsNaN (dfx x) = true ->
   IsNaN (fst (apply_method NewtonRaphson x fx dfx)) = true) /\
  (let f0 := fx x in
   let m := x - c0_5 * f0 / dfx x in
   apply_method Homeier x fx dfx
     = (x - f0 / dfx m, [CallFx x; CallDfx x; CallDfx m])).
Proof.
  rewrite NewtonRaphson_run. cbn [fst].
  split; [reflexivity|].
  split; [apply sub_div_zero|].
  split; [apply sub_div_NaN|].
  apply Homeier_run.
Qed.

End SteppingClaims.

(** ** Bisection *)

Section Bisection.

Import math root BisectSpec.
Local Open Scope f64_scope.

Variable fx : float64 -> float64.

Lemma Bisect_body_stops (a b : float64) :
  stops fx (a, b) = true ->
  Bisect_body fx a b = (inl (midpoint (a, b)), [CallFx (midpoint (a, b))]).
Proof.
  unfold stops, Bisect_body, midpoint, bisectTolerance. cbn [fst snd].
  intros ->. reflexivity.
Qed.

Lemma Bisect_body_narrows (a b : float64) :
  stops fx (a, b) = false ->
  Bisect_body fx a b = (inr (narrow fx (a, b)), calls (a, b)).
Proof.
  unfold stops, Bisect_body, narrow, calls, midpoint, bisectTolerance.
  cbn [fst snd]. intros ->.
  destruct (numerics.Sign _ =? numerics.Sign _)%Z; reflexivity.
Qed.

Lemma flat_map_seq_shift {A : Type} (g : nat -> list A) (i : nat) :
  flat_map g (seq 1 i) = flat_map (fun j => g (S j)) (seq 0 i).
Proof.
  rewrite <- seq_shift, !flat_map_concat_map, map_map. reflexivity.
Qed.

(** The loop with [k] passes left, started on the limits [ab]. *)
Lemma Bisect_loop_passes (k : nat) : forall ab : bracket,
  (exists i, (i < k)%nat /\
     (forall j, (j < i)%nat -> stops fx (limits fx ab j) = false) /\
     stops fx (limits fx ab i) = true /\
     Bisect_loop k fx (fst ab) (snd ab)
     = (midpoint (limits fx ab i),
        flat_map (fun j => calls (limits fx ab j)) (seq 0 i)
          ++ [CallFx (midpoint (limits fx ab i))]))
  \/
  ((forall j, (j < k)%nat -> stops fx (limits fx ab j) = false) /\
   Bisect_loop k fx (fst ab) (snd ab)
   = (NaN, flat_map (fun j => calls (limits fx ab j)) (seq 0 k))).
Proof.
  induction k as [|k IH]; intros [a b].
  - right. split; [lia | reflexivity].
  - cbn [fst snd Bisect_loop].
    destruct (stops fx (a, b)) eqn:Hs.
    + left. exists 0%nat. cbn [limits seq flat_map app].
      rewrite (Bisect_body_stops _ _ Hs).
      repeat split; [lia | lia | exact Hs].
    + rewrite (Bisect_body_narrows _ _ Hs).
      destruct (narrow fx (a, b)) as [a' b'] eqn:Hn.
      destruct (IH (a', b')) as [(i & Hi & Hbefore & Hat & Hrun) | (Hall & Hrun)];
        cbn [fst snd] in Hrun; unfold bind; rewrite Hrun.
      * left. exists (S i). cbn [limits]. rewrite Hn.
        repeat split; [lia | | exact Hat | ].
        -- intros [|j] Hj; cbn [limits]; [exact Hs | rewrite Hn; apply Hbefore; lia].
        -- cbn [seq flat_map limits]. rewrite flat_map_seq_shift.
           cbn [limits]. rewrite Hn, <- app_assoc. reflexivity.
      * right. split.
        -- intros [|j] Hj; cbn [limits]; [exact Hs | rewrite Hn; apply Hall; lia].
        -- cbn [seq flat_map limits]. rewrite flat_map_seq_shift.
           cbn [limits]. rewrite Hn. reflexivity.
Qed.

End Bisection.

Section BisectionClaims.

Import math root BisectSpec.
Local Open Scope f64_scope.

(** C5. [Bisect fx a b] makes at most 100 iterations.  Iteration [i] works
    on the limits obtained from [(a, b)] by [i] replacements, each of which
    puts the midpoint [c = (a+b)/2] in the place of [a] when the sign of
    [fx(c)] is the sign of [fx(a)] and in the place of [b] otherwise, after
    calling [fx(c)] and then [fx(a)].  The first iteration [i < 100] whose
    midpoint has [fx(c) == 0] or whose half-width [(b-a)/2] is below 1e-11
    returns that midpoint, right after its call [fx(c)]; when none of the
    100 iterations does, the result is NaN. *)
Theorem Bisect_iterations (fx : float64 -> float64) (a b : float64) :
  (exists i, (i < 100)%nat /\
     (forall j, (j < i)%nat -> stops fx (limits fx (a, b) j) = false) /\
     stops fx (limits fx (a, b) i) = true /\
     Bisect fx a b
     = (midpoint (limits fx (a, b) i),
        flat_map (fun j => calls (limits fx (a, b) j)) (seq 0 i)
          ++ [CallFx (midpoint (limits fx (a, b) i))]))
  \/
  ((forall j, (j < 100)%nat -> stops fx (limits fx (a, b) j) = false) /\
   Bisect fx a b
   = (NaN, flat_map (fun j => calls (limits fx (a, b) j)) (seq 0 100))).
Proof.
  exact (Bisect_loop_passes fx 100 (a, b)).
Qed.

(** Two runs: the root of [x - 1] in [0, 4] is found in the second
    iteration, after three calls; on the limits [0, +Inf] with a function
    without a root the 100 iterations are used up. *)
Example Bisect_finds_root :
  Bisect (fun x => x - of_Z 1) (of_Z 0) (of_Z 4)
  = (of_Z 1, [CallFx (of_Z 2); CallFx (of_Z 0); CallFx (of_Z 1)]).
Proof. reflexivity. Qed.

Example Bisect_gives_up :
  fst (Bisect (fun _ => of_Z 1) (of_Z 0) (S754_infinity false)) = NaN /\
  length (snd (Bisect (fun _ => of_Z 1) (of_Z 0) (S754_infinity false))) = 200%nat.
Proof. split; vm_compute; reflexivity. Qed.

End BisectionClaims.

(** ** The loop body *)

Section LoopBody.

Import math root Paths.
Local Open Scope f64_scope.

Lemma bind_lift {A B} (m : W call A) (k : A -> W event B) :
  bind (lift m) k = (fst (k (fst m)), map Call (snd m) ++ snd (k (fst m))).
Proof.
  unfold bind, lift. destruct m as [a l]. cbn [fst snd].
  destruct (k a). reflexivity.
Qed.

Lemma bind_tell {E B} (e : E) (k : unit -> W E B) :
  bind (tell e) k = (fst (k tt), e :: snd (k tt)).
Proof. unfold bind, tell. destruct (k tt). reflexivity. Qed.

Lemma bind_ret_r {E A} (m : W E A) : bind m ret = m.
Proof. unfold bind, ret. destruct m. now rewrite app_nil_r. Qed.

Variable n : Finder.

Lemma accept_paths (v : vars) (xNew : float64) :
  accept_result n v xNew (fst (accept n v xNew)) (snd (accept n v xNew)).
Proof.
  unfold accept. cbv zeta.
  destruct (nIter (advance v xNew) >=? minIterations n)%Z eqn:Hmin.
  - destruct ((Abs (fx n xNew) <? targetPrecision n)
              || (nIter (advance v xNew) >=? maxIterations n)%Z) eqn:Hc;
      cbv [bind tell lift closure ret fst snd map app]; rewrite Hc.
    + apply Converged; [lia | exact Hc].
    + apply Unconverged; [lia | exact Hc].
  - cbv [bind tell ret fst snd app]. apply Below. lia.
Qed.

(** A pass through the loop body: the method, then the guards. *)
Lemma round_unfold (v : vars) :
  round n v =
  (fst (excess_guard n v (fst (candidate n v))),
   map Call (snd (candidate n v))
     ++ snd (excess_guard n v (fst (candidate n v)))).
Proof. unfold round. apply (bind_lift _ (excess_guard n v)). Qed.

Lemma heuristics_paths (v : vars) (xNew : float64) :
  IsNaN xNew = false ->
  (IsInf xNew 0 = false ->
   (xNew >? xMax n) = false /\ (xNew <? xMin n) = false) ->
  round_result n v xNew (fst (heuristics n v xNew)) (snd (heuristics n v xNew)).
Proof.
  intros Hnan Hb. unfold heuristics.
  assert (Hplain : round_result n v xNew (fst (accept n v xNew))
                                 (snd (accept n v xNew))).
  { apply (Passed n v xNew v [] _ _); auto using accept_paths. }
  destruct (useHeuristics n); [|exact Hplain].
  destruct (IsInf xNew 0).
  { destruct (IsInf xNew 1); apply Retried; auto. }
  destruct (Abs (xNew - x v) >? c1e_15); [|exact Hplain].
  rewrite bind_tell. cbn [fst snd].
  destruct (map_mem xNew (resultLookup v)).
  { destruct (xNew != x v); apply Retried; auto. }
  rewrite bind_tell. cbn [fst snd].
  apply (Passed n v xNew (remember v xNew) [MapGet xNew; MapPut xNew] _ _);
    auto using accept_paths.
Qed.

(** Every pass through the loop body takes one of the ways of
    [round_result], behind the calls of the method. *)
Lemma round_paths (v : vars) :
  exists tr,
    snd (round n v) = map Call (snd (candidate n v)) ++ tr /\
    round_result n v (fst (candidate n v)) (fst (round n v)) tr.
Proof.
  rewrite round_unfold. cbn [fst snd].
  eexists. split; [reflexivity|].
  set (xNew := fst (candidate n v)). unfold excess_guard.
  assert (Hguard : (IsInf xNew 0 = false ->
                    (xNew >? xMax n) = false /\ (xNew <? xMin n) = false) ->
                   round_result n v xNew (fst (nan_guard n v xNew))
                                (snd (nan_guard n v xNew))).
  { intros Hb. unfold nan_guard. destruct (IsNaN xNew) eqn:Hnan.
    - apply Aborted. exact Hnan.
    - apply heuristics_paths; assumption. }
  destruct (IsInf xNew 0) eqn:Hinf; cbn [negb].
  - apply Hguard. discriminate.
  - destruct (xNew >? xMax n) eqn:Hhi; [apply Retried; auto|].
    destruct (xNew <? xMin n) eqn:Hlo; [apply Retried; auto|].
    apply Hguard. auto.
Qed.

End LoopBody.

(** ** Reading logs *)

Section Logs.

Import Paths.

Lemma accepted_app (t1 t2 : list event) :
  accepted (t1 ++ t2) = accepted t1 ++ accepted t2.
Proof.
  induction t1 as [|e t1 IH]; [reflexivity|].
  destruct e; cbn [app accepted]; rewrite IH; reflexivity.
Qed.

Lemma accepted_calls (l : list call) : accepted (map Call l) = [].
Proof. induction l; [reflexivity | assumption]. Qed.

Lemma accepted_count_app (t1 t2 : list event) :
  accepted_count (t1 ++ t2) = (accepted_count t1 + accepted_count t2)%Z.
Proof.
  unfold accepted_count. rewrite accepted_app, length_app. lia.
Qed.

Lemma accepted_count_nonneg (tr : list event) : (0 <= accepted_count tr)%Z.
Proof. unfold accepted_count. lia. Qed.

Lemma guarded_app (m : Z) (t1 : list event) : forall (c : Z) (t2 : list event),
  guarded m c (t1 ++ t2) <->
  guarded m c t1 /\ guarded m (c + accepted_count t1) t2.
Proof.
  induction t1 as [|e t1 IH]; intros c t2.
  - cbn [app guarded]. change (accepted_count []) with 0%Z.
    rewrite Z.add_0_r. tauto.
  - destruct e; cbn [app guarded]; rewrite IH;
      unfold accepted_count; cbn [accepted length];
      rewrite ?Nat2Z.inj_succ, <- ?Z.add_1_l, ?Z.add_assoc; tauto.
Qed.

Lemma guarded_calls (m c : Z) (l : list call) : guarded m c (map Call l).
Proof. induction l; [exact I | assumption]. Qed.

(** [guarded], read at an evaluation of the convergence condition. *)
Lemma guarded_at (m c : Z) (tr t1 t2 : list event) (y : float64) :
  guarded m c tr -> tr = t1 ++ ConvTest y :: t2 ->
  (m <= c + accepted_count t1)%Z.
Proof.
  intros H ->. apply guarded_app in H. destruct H as [_ [H _]]. exact H.
Qed.

End Logs.

(** ** Runs of the loop *)

Section Runs.

Import math root Paths.
Local Open Scope Z_scope.

Lemma incr_small (z : Z) : 0 <= z < GoInt.MaxInt -> GoInt.incr z = z + 1.
Proof.
  unfold GoInt.incr, GoInt.wrap, GoInt.MaxInt. intros H.
  rewrite Z.mod_small; lia.
Qed.

Variable n : Finder.

Lemma rounds_S (k : nat) (v : vars) :
  rounds (S k) n v =
  match fst (round n v) with
  | Continue v' => (fst (rounds k n v'), snd (round n v) ++ snd (rounds k n v'))
  | o => (o, snd (round n v))
  end.
Proof.
  cbn [rounds]. unfold bind. destruct (round n v) as [o t]. cbn [fst snd].
  destruct o; unfold ret; rewrite ?app_nil_r; try reflexivity.
  destruct (rounds k n v0). reflexivity.
Qed.

Hypothesis min_in_range : GoInt.in_range (minIterations n).
Hypothesis max_in_range : GoInt.in_range (maxIterations n).

Lemma accept_facts (v : vars) (xNew : float64) (o : outcome) (acc : list event) :
  0 <= nIter v < GoInt.MaxInt ->
  accept_result n v xNew o acc ->
  accepted acc = [xNew] /\
  guarded (minIterations n) (nIter v) acc /\
  exists v', vars_of o = Some v' /\ x v' = xNew /\ nIter v' = nIter v + 1 /\
    (o = Continue v' -> nIter v' < GoInt.MaxInt) /\
    (o = Break v' -> minIterations n <= nIter v' /\ converged n v' = true).
Proof.
  intros Hc H.
  assert (Hn : nIter (advance v xNew) = nIter v + 1)
    by (cbn [advance nIter]; apply incr_small; exact Hc).
  destruct min_in_range as [_ Hmin]. destruct max_in_range as [_ Hmax].
  destruct H as [Hlt | Hge Hconv | Hge Hconv];
    (split; [reflexivity|]); cbn [guarded];
    (split; [try split; try exact I; lia|]); exists (advance v xNew);
    (split; [reflexivity|]); (split; [reflexivity|]); (split; [exact Hn|]).
  - split; [intros _; lia | discriminate].
  - split; [discriminate | intros _; split; assumption].
  - split; [intros _ | discriminate].
    unfold converged in Hconv.
    apply orb_false_elim in Hconv. destruct Hconv as [_ Hconv]. lia.
Qed.

Lemma calls_quiet (l : list call) (tr : list event) (m c : Z) :
  accepted (map Call l ++ tr) = accepted tr /\
  (guarded m c tr -> guarded m c (map Call l ++ tr)).
Proof.
  split.
  - rewrite accepted_app, accepted_calls. reflexivity.
  - intros H. apply guarded_app. split; [apply guarded_calls|].
    unfold accepted_count. rewrite accepted_calls. cbn [length].
    rewrite Z.add_0_r. exact H.
Qed.

Lemma round_facts (v : vars) :
  0 <= nIter v < GoInt.MaxInt ->
  guarded (minIterations n) (nIter v) (snd (round n v)) /\
  retry_or_accept n v /\
  (forall v', fst (round n v) = Continue v' ->
     nIter v' = nIter v + accepted_count (snd (round n v)) /\
     0 <= nIter v' < GoInt.MaxInt) /\
  (forall v', fst (round n v) = Break v' ->
     nIter v' = nIter v + accepted_count (snd (round n v)) /\
     minIterations n <= nIter v' /\ converged n v' = true /\
     accepted (snd (round n v)) = [x v']).
Proof.
  intros Hc. unfold retry_or_accept, accepted_count. cbv zeta.
  destruct (round_paths n v) as (tr & Hs & Hpath).
  rewrite Hs. clear Hs.
  destruct (calls_quiet (snd (candidate n v)) tr (minIterations n) (nIter v))
    as [-> Hquiet].
  remember (fst (round n v)) as o eqn:Ho. clear Ho.
  remember (fst (candidate n v)) as xNew eqn:HxNew. clear HxNew.
  inversion Hpath as [x' pre Hpre Ho | Hnan Ho | v0 pre acc o' Hv0 Hnan Hb Hacc Ho];
    subst.
  - assert (Ha : accepted tr = []) by (destruct Hpre; subst; reflexivity).
    rewrite Ha. cbn [length].
    split; [apply Hquiet; destruct Hpre; subst; exact I|].
    split; [left; split; [reflexivity|]; right; eauto|].
    split; [|discriminate].
    intros v' [= <-]. cbn [set_x nIter]. lia.
  - cbn [accepted length].
    split; [apply Hquiet; exact I|].
    split; [left; split; [reflexivity|]; left; reflexivity|].
    split; discriminate.
  - assert (Hc0 : 0 <= nIter v0 < GoInt.MaxInt)
      by (destruct Hv0 as [[-> _]|[-> _]]; exact Hc).
    assert (Hn0 : nIter v0 = nIter v)
      by (destruct Hv0 as [[-> _]|[-> _]]; reflexivity).
    destruct (accept_facts v0 _ _ _ Hc0 Hacc)
      as (Ha & Hg & v' & Hv' & Hx & Hn & Hcont & Hbrk).
    assert (Hpa : accepted (pre ++ acc) = [xNew]).
    { rewrite accepted_app, Ha.
      destruct Hv0 as [[_ ->]|[_ ->]]; reflexivity. }
    rewrite Hpa. cbn [length]. rewrite Hn0 in *.
    split.
    { apply Hquiet, guarded_app.
      destruct Hv0 as [[_ ->]|[_ ->]]; (split; [exact I|]);
        unfold accepted_count; cbn [accepted length];
        rewrite Z.add_0_r; exact Hg. }
    split; [right; split; [reflexivity|]; exists v'; auto|].
    split; intros v1 Hv1; rewrite Hv1 in *; cbn [vars_of] in Hv';
      injection Hv' as <-.
    + split; [lia|]. specialize (Hcont eq_refl). lia.
    + destruct (Hbrk eq_refl) as [Hm Hcv].
      split; [lia|]. split; [exact Hm|]. split; [exact Hcv|].
      rewrite Hx. reflexivity.
Qed.

End Runs.

Section RunFacts.

Import math root Paths.
Local Open Scope Z_scope.

Variable n : Finder.

Lemma rounds_add (k m : nat) : forall (v0 v : vars) (tr : list event),
  rounds k n v0 = (Continue v, tr) ->
  rounds (k + m) n v0 = (fst (rounds m n v), tr ++ snd (rounds m n v)).
Proof.
  induction k as [|k IH]; intros v0 v tr H.
  - injection H as <- <-. cbn [Nat.add app]. now destruct (rounds m n v0).
  - cbn [Nat.add]. rewrite rounds_S in H |- *.
    destruct (fst (round n v0)) as [v1| |] eqn:Ho; try discriminate.
    destruct (rounds k n v1) as [o1 t1] eqn:Hk. cbn [fst snd] in H.
    injection H as -> <-.
    rewrite (IH _ _ _ Hk). cbn [fst snd]. now rewrite app_assoc.
Qed.

(** Once the loop is left, more fuel changes nothing. *)
Lemma rounds_stable (k : nat) : forall (v : vars) (k' : nat),
  (k <= k')%nat ->
  returned (fst (rounds k n v)) <> None ->
  rounds k' n v = rounds k n v.
Proof.
  induction k as [|k IH]; intros v k' Hle Hret.
  - now contradiction Hret.
  - destruct k' as [|k']; [lia|].
    rewrite !rounds_S in *.
    destruct (fst (round n v)) as [v1| |]; try reflexivity.
    cbn [fst] in Hret. rewrite (IH v1 k'); [reflexivity | lia | exact Hret].
Qed.

Hypothesis min_in_range : GoInt.in_range (minIterations n).
Hypothesis max_in_range : GoInt.in_range (maxIterations n).

Lemma rounds_facts (k : nat) : forall v : vars,
  0 <= nIter v < GoInt.MaxInt ->
  guarded (minIterations n) (nIter v) (snd (rounds k n v)) /\
  (forall v', fst (rounds k n v) = Continue v' ->
     nIter v' = nIter v + accepted_count (snd (rounds k n v)) /\
     0 <= nIter v' < GoInt.MaxInt) /\
  (forall v', fst (rounds k n v) = Break v' ->
     nIter v' = nIter v + accepted_count (snd (rounds k n v)) /\
     minIterations n <= nIter v' /\ converged n v' = true /\
     exists pre, accepted (snd (rounds k n v)) = pre ++ [x v']).
Proof.
  induction k as [|k IH]; intros v Hc.
  - cbn [rounds ret fst snd guarded].
    split; [exact I|]. split; [|discriminate].
    intros v' [= <-]. change (accepted_count []) with 0. lia.
  - rewrite rounds_S.
    destruct (round_facts n min_in_range max_in_range v Hc)
      as (Hg & _ & Hcont & Hbrk).
    destruct (fst (round n v)) as [v1|v1|] eqn:Ho; cbn [fst snd].
    + destruct (Hcont v1 eq_refl) as [Hn1 Hc1].
      destruct (IH v1 Hc1) as (Hg1 & Hcont1 & Hbrk1).
      rewrite accepted_count_app, accepted_app.
      split; [apply guarded_app; rewrite <- Hn1; auto|].
      split; intros v' Hv'.
      * destruct (Hcont1 v' Hv'). split; lia.
      * destruct (Hbrk1 v' Hv') as (? & ? & ? & pre & Hpre).
        split; [lia|]. split; [assumption|]. split; [assumption|].
        exists (accepted (snd (round n v)) ++ pre).
        rewrite Hpre. now rewrite app_assoc.
    + split; [exact Hg|]. split; [discriminate|].
      intros v' [= <-]. destruct (Hbrk v1 eq_refl) as (? & ? & ? & Ha).
      repeat split; try assumption. exists []. exact Ha.
    + split; [exact Hg|]. split; discriminate.
Qed.

End RunFacts.

(** ** The properties of [Find] *)

Section FindClaims.

Import math root Paths Tests.
Local Open Scope Z_scope.

Lemma Find_rounds (fuel : nat) (fx dfx : float64 -> float64) (xInit : float64)
  (options : list option_fn) :
  Find fuel fx dfx xInit options
  = (returned (fst (rounds fuel (configure fx dfx options) (init xInit))),
     snd (rounds fuel (configure fx dfx options) (init xInit))).
Proof.
  unfold Find, loop, bind, ret.
  destruct (rounds fuel _ _). now rewrite app_nil_r.
Qed.

Lemma package_options_keep_fx (i : Z) (p lo hi : float64) (m : Method) :
  keeps_fx (WithMinIterations i) /\ keeps_fx (WithMaxIterations i) /\
  keeps_fx (WithTargetPrecision p) /\ keeps_fx (WithMethod m) /\
  keeps_fx (WithLimits lo hi) /\ keeps_fx WithHeuristics.
Proof. repeat split. Qed.

(** With such options, the Finder of [Find] holds the [fx] it was given. *)
Lemma configure_keeps_fx (fx dfx : float64 -> float64) (options : list option_fn) :
  Forall keeps_fx options -> root.fx (configure fx dfx options) = fx.
Proof.
  unfold configure.
  change fx with (root.fx (defaults fx dfx)) at 2.
  generalize (defaults fx dfx).
  induction options as [|o options IH]; intros m H; [reflexivity|].
  inversion H as [|? ? Ho Hrest]; subst. cbn [fold_left].
  rewrite (IH (o m) Hrest). apply Ho.
Qed.

Lemma init_counter (xInit : float64) : 0 <= nIter (init xInit) < GoInt.MaxInt.
Proof. cbn. unfold GoInt.MaxInt. lia. Qed.

(** C1. Whenever [Find] returns a value that is not NaN, that value is the
    iterate accepted last, the number of accepted steps is then at least
    [minIterations], and [|fx(x)| < targetPrecision] holds for it or the
    number of accepted steps is at least [maxIterations].  And wherever a
    run of [Find] evaluates the convergence condition, at least
    [minIterations] steps have been accepted before.  ([minIterations] and
    [maxIterations] are values of Go's type [int].) *)
Theorem Find_returns_converged (fx dfx : float64 -> float64)
  (xInit : float64) (options : list option_fn) :
  let n := configure fx dfx options in
  GoInt.in_range (minIterations n) ->
  GoInt.in_range (maxIterations n) ->
  (forall fuel r tr,
     Find fuel fx dfx xInit options = (Some r, tr) ->
     IsNaN r = false ->
     (exists pre, accepted tr = pre ++ [r]) /\
     minIterations n <= accepted_count tr /\
     ((Abs (root.fx n r) <? targetPrecision n)%f64 = true \/
      maxIterations n <= accepted_count tr)) /\
  (forall fuel t1 y t2,
     snd (Find fuel fx dfx xInit options) = t1 ++ ConvTest y :: t2 ->
     minIterations n <= accepted_count t1).
Proof.
  intros n Hmin Hmax.
  assert (H := fun fuel =>
    rounds_facts n Hmin Hmax fuel (init xInit) (init_counter xInit)).
  split.
  - intros fuel r tr HFind Hnan.
    rewrite Find_rounds in HFind. fold n in HFind.
    destruct (H fuel) as (_ & _ & Hbrk).
    injection HFind as Hr Htr. rewrite Htr in *.
    destruct (fst (rounds fuel n (init xInit))) as [v|v|] eqn:Ho;
      cbn [returned] in Hr; try discriminate.
    + injection Hr as <-.
      destruct (Hbrk v eq_refl) as (Hn & Hm & Hconv & Hlast).
      cbn [init nIter] in Hn. rewrite Z.add_0_l in Hn.
      split; [exact Hlast|]. rewrite <- Hn.
      split; [exact Hm|].
      unfold converged in Hconv. apply orb_true_iff in Hconv.
      destruct Hconv; [left; assumption | right; lia].
    + injection Hr as <-. discriminate.
  - intros fuel t1 y t2 Hsplit.
    rewrite Find_rounds in Hsplit. fold n in Hsplit. cbn [snd] in Hsplit.
    destruct (H fuel) as (Hg & _).
    apply (guarded_at _ _ _ _ _ _ Hg Hsplit).
Qed.

Lemma Find_returns_converged_witness :
  exists r tr,
    Find 10 square612 dsquare612 (of_Z 10) [] = (Some r, tr) /\
    5 <= accepted_count tr /\
    (Abs (square612 r) <? c1e_9)%f64 = true.
Proof.
  destruct (Find 10 square612 dsquare612 (of_Z 10) []) as [[r|] tr] eqn:E;
    [|vm_compute in E; discriminate E].
  exists r, tr. split; [reflexivity|].
  assert (Hnan : IsNaN r = false)
    by (vm_compute in E; injection E as <- _; reflexivity).
  assert (Hmin : GoInt.in_range 5) by (unfold GoInt.in_range; vm_compute; intuition discriminate).
  assert (Hmax : GoInt.in_range 25) by (unfold GoInt.in_range; vm_compute; intuition discriminate).
  destruct (proj1 (Find_returns_converged square612 dsquare612 (of_Z 10) []
                     Hmin Hmax) 10%nat r tr E Hnan) as (_ & H5 & _).
  split; [exact H5|].
  vm_compute in E. injection E as <- _. reflexivity.
Defined.

(** C2. After any number of passes through the loop of [Find], the
    counter [nIter] is the number of steps accepted so far; and a pass
    either accepts nothing and restarts with the counter unchanged (or
    returns NaN), or accepts its candidate and adds one to the counter.
    ([minIterations] and [maxIterations] are values of Go's type [int].) *)
Theorem counter_counts_accepted_steps (k : nat) (fx dfx : float64 -> float64)
  (xInit : float64) (options : list option_fn) :
  let n := configure fx dfx options in
  GoInt.in_range (minIterations n) ->
  GoInt.in_range (maxIterations n) ->
  (forall v, vars_of (fst (rounds k n (init xInit))) = Some v ->
     nIter v = accepted_count (snd (rounds k n (init xInit)))) /\
  (forall v, fst (rounds k n (init xInit)) = Continue v ->
     retry_or_accept n v).
Proof.
  intros n Hmin Hmax.
  destruct (rounds_facts n Hmin Hmax k (init xInit) (init_counter xInit))
    as (_ & Hcont & Hbrk).
  cbn [init nIter] in Hcont, Hbrk.
  split; intros v Hv.
  - destruct (fst (rounds k n (init xInit))) as [v'|v'|];
      cbn [vars_of] in Hv; try discriminate; injection Hv as <-.
    + destruct (Hcont v' eq_refl). lia.
    + destruct (Hbrk v' eq_refl) as (? & _). lia.
  - destruct (Hcont v Hv) as [_ Hc].
    apply (round_facts n Hmin Hmax v Hc).
Qed.

Lemma counter_counts_accepted_steps_witness :
  exists v,
    fst (rounds 3 (configure square612 dsquare612 []) (init (of_Z 10)))
      = Continue v /\
    nIter v = 3 /\
    accepted_count
      (snd (rounds 3 (configure square612 dsquare612 []) (init (of_Z 10)))) = 3 /\
    retry_or_accept (configure square612 dsquare612 []) v.
Proof.
  assert (Hmin : GoInt.in_range 5) by (unfold GoInt.in_range; vm_compute; intuition discriminate).
  assert (Hmax : GoInt.in_range 25) by (unfold GoInt.in_range; vm_compute; intuition discriminate).
  destruct (counter_counts_accepted_steps 3 square612 dsquare612 (of_Z 10) []
              Hmin Hmax) as [Hcount Hstep].
  destruct (fst (rounds 3 (configure square612 dsquare612 []) (init (of_Z 10))))
    as [v| |] eqn:E; try (vm_compute in E; discriminate E).
  exists v. split; [reflexivity|].
  assert (Hc : accepted_count
      (snd (rounds 3 (configure square612 dsquare612 []) (init (of_Z 10)))) = 3)
    by (vm_compute; reflexivity).
  rewrite <- Hc at 1.
  split; [apply Hcount; reflexivity|].
  split; [exact Hc | apply Hstep; reflexivity].
Defined.

(** C3. If, after any number of passes through the loop of [Find], the
    method produces NaN as the candidate, that pass returns NaN right
    behind the calls of the method: nothing is looked up or stored in
    [resultLookup], nothing is accepted, the convergence condition is not
    evaluated, and [Find] returns NaN, whether the heuristics are enabled
    or not. *)
Theorem NaN_candidate_returns_NaN (k : nat) (fx dfx : float64 -> float64)
  (xInit : float64) (options : list option_fn) (v : vars) (tr : list event) :
  let n := configure fx dfx options in
  rounds k n (init xInit) = (Continue v, tr) ->
  IsNaN (fst (candidate n v)) = true ->
  round n v = (ReturnNaN, map Call (snd (candidate n v))) /\
  forall fuel, (k < fuel)%nat ->
    Find fuel fx dfx xInit options
    = (Some NaN, tr ++ map Call (snd (candidate n v))).
Proof.
  intros n Hk Hnan.
  assert (Hround : round n v = (ReturnNaN, map Call (snd (candidate n v)))).
  { rewrite round_unfold. unfold excess_guard, nan_guard.
    rewrite Hnan. apply IsNaN_true in Hnan. rewrite Hnan.
    rewrite NaN_gtb, NaN_ltb. cbn [IsInf NaN negb ret fst snd].
    rewrite app_nil_r. reflexivity. }
  split; [exact Hround|].
  intros fuel Hfuel. rewrite Find_rounds. fold n.
  replace fuel with (k + S (fuel - k - 1))%nat by lia.
  rewrite (rounds_add n k _ _ _ _ Hk), rounds_S, Hround.
  reflexivity.
Qed.

Lemma NaN_candidate_returns_NaN_witness :
  Find 2 stationary dstationary (of_Z 0) []
  = (Some NaN,
     [Call (CallFx (of_Z 0)); Call (CallDfx (of_Z 0));
      Accepted (S754_infinity false)]
     ++ [Call (CallFx (S754_infinity false));
         Call (CallDfx (S754_infinity false))]).
Proof.
  refine (proj2 (NaN_candidate_returns_NaN 1 stationary dstationary (of_Z 0) []
                   {| x := S754_infinity false; nIter := 1; resultLookup := [] |}
                   [Call (CallFx (of_Z 0)); Call (CallDfx (of_Z 0));
                    Accepted (S754_infinity false)] _ _) 2%nat _).
  - vm_compute. reflexivity.
  - vm_compute. reflexivity.
  - lia.
Defined.

(** Once the loop is left, more rounds change nothing: two runs that
    return agree on the value and on the log. *)
Lemma Find_stable (fuel1 fuel2 : nat) (fx dfx : float64 -> float64)
  (xInit : float64) (options : list option_fn)
  (r1 r2 : float64) (t1 t2 : list event) :
  Find fuel1 fx dfx xInit options = (Some r1, t1) ->
  Find fuel2 fx dfx xInit options = (Some r2, t2) ->
  r1 = r2 /\ t1 = t2.
Proof.
  intros H1 H2.
  assert (Hsame : Find fuel1 fx dfx xInit options
                  = Find fuel2 fx dfx xInit options).
  { rewrite !Find_rounds in *.
    set (n := configure fx dfx options) in *.
    destruct (Nat.le_ge_cases fuel1 fuel2) as [Hle|Hle].
    - rewrite (rounds_stable n fuel1 _ fuel2 Hle); [reflexivity|].
      injection H1 as -> _. discriminate.
    - rewrite (rounds_stable n fuel2 _ fuel1 Hle); [reflexivity|].
      injection H2 as -> _. discriminate. }
  rewrite <- Hsame, H1 in H2. injection H2 as <- <-.
  split; reflexivity.
Qed.

End FindClaims.

(** ** The objects of a call *)

Section Objects.

Import math root Store Tests.

Lemma nth_error_last {A : Type} (l : list A) (a : A) :
  nth_error (l ++ [a]) (length l) = Some a.
Proof. induction l as [|b l IH]; [reflexivity | exact IH]. Qed.

Lemma update_last {A : Type} (l : list A) (a b : A) :
  update (length l) b (l ++ [a]) = l ++ [b].
Proof.
  induction l as [|c l IH]; [reflexivity|]. cbn [length app update].
  now rewrite IH.
Qed.

(** The options work on the Finder of this call, and on nothing else. *)
Lemma execute_all_last (options : list option_fn) (F : list Finder)
  (M : list (list float64)) : forall n : Finder,
  execute_all options (length F) {| finders := F ++ [n]; maps := M |}
  = Some {| finders := F ++ [fold_left (fun obj o => o obj) options n];
            maps := M |}.
Proof.
  unfold execute_all.
  induction options as [|o options IH]; intros n; [reflexivity|].
  cbn [fold_left]. unfold execute at 2. cbn [finders maps].
  rewrite nth_error_last, update_last. apply IH.
Qed.

(** The passes on the objects are the passes on the variables, with the
    map of this call for [resultLookup]; the other objects are not
    looked at and stay as they are. *)
Lemma rounds_at_rounds (n : Finder) (F : list Finder)
  (M : list (list float64)) (k : nat) :
  forall (x0 : float64) (c : Z) (m : list float64),
  exists seen,
    rounds_at k (length F) (length M) x0 c
      {| finders := F ++ [n]; maps := M ++ [m] |}
    = Some (fst (rounds k n {| x := x0; nIter := c; resultLookup := m |}),
            snd (rounds k n {| x := x0; nIter := c; resultLookup := m |}),
            {| finders := F ++ [n]; maps := M ++ [seen] |}).
Proof.
  induction k as [|k IH]; intros x0 c m.
  - exists m. cbn [rounds_at]. unfold view. cbn [finders maps].
    rewrite !nth_error_last. reflexivity.
  - cbn [rounds_at]. unfold view. cbn [finders maps].
    rewrite !nth_error_last. rewrite rounds_S.
    destruct (round n {| x := x0; nIter := c; resultLookup := m |})
      as [o tr]. cbn [fst snd].
    destruct o as [v'|v'|]; cbn [write_back finders maps].
    + rewrite update_last.
      destruct (IH (x v') (nIter v') (resultLookup v')) as [seen Hrun].
      rewrite Hrun. exists seen. destruct v'. reflexivity.
    + rewrite update_last. eexists. reflexivity.
    + eexists. reflexivity.
Qed.

(** A call of [Find] on any objects: it makes its own Finder and its own
    map, and does what [Find] does on the variables. *)
Lemma Find_at_Find (fuel : nat) (fx dfx : float64 -> float64)
  (xInit : float64) (options : list option_fn) (h : heap) :
  exists seen,
    Find_at fuel fx dfx xInit options h
    = Some (fst (Find fuel fx dfx xInit options),
            snd (Find fuel fx dfx xInit options),
            {| finders := finders h ++ [configure fx dfx options];
               maps := maps h ++ [seen] |}).
Proof.
  unfold Find_at, new_Finder. rewrite execute_all_last.
  fold (configure fx dfx options).
  unfold loop_at, make_map. cbn [finders maps].
  destruct (rounds_at_rounds (configure fx dfx options) (finders h) (maps h)
              fuel xInit 0 []) as [seen Hrun].
  rewrite Hrun, Find_rounds. exists seen. reflexivity.
Qed.

(** C9. Two invocations of [Find] with the same arguments that return,
    return the same value after the same calls, accesses and steps,
    whatever objects the calls made before have left behind and however
    many rounds the loop is given.  Each call makes a Finder of its own,
    which the options have worked on, and a map of its own without keys,
    and runs the loop on them from [xInit] and the counter 0; the
    objects that were there stay as they are and are joined by these two.
    So a second invocation, behind the first one and with its map still
    there, does what the first one did.  It is the run of [Find] on the
    variables. *)
Theorem Find_deterministic (fuel1 fuel2 : nat) (fx dfx : float64 -> float64)
  (xInit : float64) (options : list option_fn) (h1 h2 h1' h2' : heap)
  (r1 r2 : float64) (t1 t2 : list event) :
  Find_at fuel1 fx dfx xInit options h1 = Some (Some r1, t1, h1') ->
  Find_at fuel2 fx dfx xInit options h2 = Some (Some r2, t2, h2') ->
  r1 = r2 /\ t1 = t2 /\
  (exists h0,
     finders h0 = finders h1 ++ [configure fx dfx options] /\
     maps h0 = maps h1 ++ [[]] /\
     Find_at fuel1 fx dfx xInit options h1
     = match rounds_at fuel1 (length (finders h1)) (length (maps h1))
               xInit 0 h0 with
       | Some (o, tr, h') => Some (returned o, tr, h')
       | None => None
       end) /\
  (exists seen,
     h1' = {| finders := finders h1 ++ [configure fx dfx options];
              maps := maps h1 ++ [seen] |}) /\
  (exists h1'',
     Find_at fuel2 fx dfx xInit options h1' = Some (Some r1, t1, h1'')) /\
  Find fuel1 fx dfx xInit options = (Some r1, t1).
Proof.
  intros H1 H2.
  destruct (Find_at_Find fuel1 fx dfx xInit options h1) as [seen1 E1].
  destruct (Find_at_Find fuel2 fx dfx xInit options h2) as [seen2 E2].
  rewrite E1 in H1. rewrite E2 in H2.
  injection H1 as Hr1 Ht1 Hh1. injection H2 as Hr2 Ht2 Hh2.
  assert (P1 : Find fuel1 fx dfx xInit options = (Some r1, t1))
    by (rewrite <- Hr1, <- Ht1; apply surjective_pairing).
  assert (P2 : Find fuel2 fx dfx xInit options = (Some r2, t2))
    by (rewrite <- Hr2, <- Ht2; apply surjective_pairing).
  destruct (Find_stable _ _ _ _ _ _ _ _ _ _ P1 P2) as [Er Et].
  split; [exact Er|]. split; [exact Et|]. split; [|split; [|split]].
  - exists {| finders := finders h1 ++ [configure fx dfx options];
              maps := maps h1 ++ [[]] |}.
    split; [reflexivity|]. split; [reflexivity|].
    unfold Find_at, new_Finder. rewrite execute_all_last.
    reflexivity.
  - exists seen1. symmetry. exact Hh1.
  - destruct (Find_at_Find fuel2 fx dfx xInit options h1') as [seen E].
    rewrite E, P2, <- Er, <- Et. eexists. reflexivity.
  - exact P1.
Qed.

Lemma Find_deterministic_witness :
  exists r tr ha hb,
    Find_at 10 square612 dsquare612 (of_Z 10) [WithHeuristics]
      {| finders := []; maps := [] |}
    = Some (Some r, tr, ha) /\
    Find_at 20 square612 dsquare612 (of_Z 10) [WithHeuristics]
      {| finders := [configure cycle dcycle [WithHeuristics]];
         maps := [[of_Z 24; of_Z 25]] |}
    = Some (Some r, tr, hb).
Proof.
  destruct (Find_at 10 square612 dsquare612 (of_Z 10) [WithHeuristics]
              {| finders := []; maps := [] |})
    as [[[[r1|] t1] ha]|] eqn:E1;
    [|apply (f_equal returns) in E1; vm_compute in E1; discriminate E1
     |apply (f_equal returns) in E1; vm_compute in E1; discriminate E1].
  destruct (Find_at 20 square612 dsquare612 (of_Z 10) [WithHeuristics]
              {| finders := [configure cycle dcycle [WithHeuristics]];
                 maps := [[of_Z 24; of_Z 25]] |})
    as [[[[r2|] t2] hb]|] eqn:E2;
    [|apply (f_equal returns) in E2; vm_compute in E2; discriminate E2
     |apply (f_equal returns) in E2; vm_compute in E2; discriminate E2].
  destruct (Find_deterministic 10 20 square612 dsquare612 (of_Z 10)
              [WithHeuristics] _ _ _ _ r1 r2 t1 t2 E1 E2) as (<- & <- & _).
  exists r1, t1, ha, hb. split; reflexivity.
Defined.

End Objects.

(** ** The guards and the heuristics of the loop body *)

Section Guards.

Import math root Paths Tests.
Local Open Scope f64_scope.

Lemma SFcompare_Eq_finite (s1 s2 : bool) (m1 m2 : positive) (e1 e2 : Z) :
  SFcompare (S754_finite s1 m1 e1) (S754_finite s2 m2 e2) = Some Eq ->
  s1 = s2 /\ m1 = m2 /\ e1 = e2.
Proof.
  cbn [SFcompare]. fold (Pos.compare m1 m2).
  destruct s1, s2; try discriminate;
    destruct (Z.compare_spec e1 e2); try discriminate;
    destruct (Pos.compare_spec m1 m2); try discriminate; auto.
Qed.

(** Two numbers that are more than 1e-15 apart are different: in the
    branch of line 100, [xNew != x] always holds. *)
Lemma apart_not_equal (a b : float64) :
  (Abs (a - b) >? c1e_15) = true -> (a != b) = true.
Proof.
  unfold neqb, SFeqb.
  destruct (SFcompare a b) as [[| |]|] eqn:E; try reflexivity.
  intros H. exfalso.
  destruct a as [sa|sa| |sa ma ea], b as [sb|sb| |sb mb eb];
    try discriminate E;
    try (destruct sa, sb; discriminate).
  apply SFcompare_Eq_finite in E. destruct E as (-> & -> & ->).
  unfold sub, SFsub in H. rewrite Z.sub_diag in H. discriminate H.
Qed.

Variable n : Finder.
Variable v : vars.

Let xNew : float64 := fst (candidate n v).
Let calls : list event := map Call (snd (candidate n v)).

Lemma round_excess_upper :
  IsInf xNew 0 = false -> (xNew >? xMax n) = true ->
  round n v = (Continue (set_x v (c0_5 * (x v + xMax n))), calls).
Proof.
  intros Hinf Hhi. rewrite round_unfold. unfold excess_guard.
  fold xNew. rewrite Hinf, Hhi. cbn [negb ret fst snd].
  now rewrite app_nil_r.
Qed.

Lemma round_excess_lower :
  IsInf xNew 0 = false -> (xNew >? xMax n) = false ->
  (xNew <? xMin n) = true ->
  round n v = (Continue (set_x v (c0_5 * (x v + xMin n))), calls).
Proof.
  intros Hinf Hhi Hlo. rewrite round_unfold. unfold excess_guard.
  fold xNew. rewrite Hinf, Hhi, Hlo. cbn [negb ret fst snd].
  now rewrite app_nil_r.
Qed.

(** A candidate that passes the guards of lines 62 to 80. *)
Lemma round_heuristics :
  IsNaN xNew = false ->
  (IsInf xNew 0 = false ->
   (xNew >? xMax n) = false /\ (xNew <? xMin n) = false) ->
  round n v = (fst (heuristics n v xNew), calls ++ snd (heuristics n v xNew)).
Proof.
  intros Hnan Hb. rewrite round_unfold. unfold excess_guard, nan_guard.
  fold xNew. rewrite Hnan.
  destruct (IsInf xNew 0); cbn [negb]; [reflexivity|].
  destruct Hb as [-> ->]; reflexivity.
Qed.

End Guards.

Section GuardClaims.

Import math root Paths Tests.
Local Open Scope f64_scope.

(** The two ways through lines 87 to 95. *)
Lemma round_infinity (n : Finder) (v : vars) :
  useHeuristics n = true ->
  let xNew := fst (candidate n v) in
  let calls := map Call (snd (candidate n v)) in
  (IsInf xNew 1 = true ->
   round n v = (Continue (set_x v (x v + (c0_1 * x v + c0_1))), calls)) /\
  (IsInf xNew (-1) = true ->
   round n v = (Continue (set_x v (x v - (c0_1 * x v - c0_1))), calls)).
Proof.
  intros Hh xNew calls.
  assert (Hr : IsInf xNew 0 = true ->
               round n v = (fst (heuristics n v xNew),
                            calls ++ snd (heuristics n v xNew))).
  { intros Hinf. apply round_heuristics; fold xNew.
    - rewrite IsNaN_is_nan. destruct xNew; try discriminate; reflexivity.
    - rewrite Hinf. discriminate. }
  unfold heuristics in Hr. rewrite Hh in Hr.
  split; intros Hinf.
  - destruct xNew as [|[|]| |] eqn:E; try discriminate Hinf.
    rewrite (Hr eq_refl). cbn [IsInf Z.geb Z.compare ret fst snd].
    now rewrite app_nil_r.
  - destruct xNew as [|[|]| |] eqn:E; try discriminate Hinf.
    rewrite (Hr eq_refl). cbn [IsInf Z.leb Z.geb Z.compare ret fst snd].
    now rewrite app_nil_r.
Qed.

(** C7. With the heuristics enabled, a candidate that is +Infinity makes
    the pass end behind the calls of the method, and the next pass starts
    with the [x] that is [x + (0.1*x + 0.1)]; a candidate that is -Infinity
    does so with the [x] that is [x - (0.1*x - 0.1)].  In both cases the
    counter and the map are the ones the pass started with, and nothing
    has been accepted. *)
Theorem infinity_recovery (n : Finder) (v : vars) :
  useHeuristics n = true ->
  let xNew := fst (candidate n v) in
  let calls := map Call (snd (candidate n v)) in
  (IsInf xNew 1 = true ->
   exists v',
     round n v = (Continue v', calls) /\
     x v' = x v + (c0_1 * x v + c0_1) /\
     nIter v' = nIter v /\ resultLookup v' = resultLookup v /\
     accepted (snd (round n v)) = []) /\
  (IsInf xNew (-1) = true ->
   exists v',
     round n v = (Continue v', calls) /\
     x v' = x v - (c0_1 * x v - c0_1) /\
     nIter v' = nIter v /\ resultLookup v' = resultLookup v /\
     accepted (snd (round n v)) = []) /\
  (IsInf xNew 0 = true -> IsInf xNew 1 = true \/ IsInf xNew (-1) = true).
Proof.
  intros Hh xNew calls.
  destruct (round_infinity n v Hh) as [Hup Hdown].
  fold xNew calls in Hup, Hdown.
  split; [|split]; intros Hinf.
  - rewrite (Hup Hinf). eexists. split; [reflexivity|].
    cbn [set_x x nIter resultLookup snd]. repeat split.
    apply accepted_calls.
  - rewrite (Hdown Hinf). eexists. split; [reflexivity|].
    cbn [set_x x nIter resultLookup snd]. repeat split.
    apply accepted_calls.
  - destruct xNew as [|[|]| |]; try discriminate Hinf; auto.
Qed.

Lemma infinity_recovery_witness :
  (exists v',
     round (configure stationary dstationary [WithHeuristics]) (init (of_Z 0))
     = (Continue v', [Call (CallFx (of_Z 0)); Call (CallDfx (of_Z 0))]) /\
     x v' = c0_1 /\ nIter v' = 0%Z /\ resultLookup v' = []) /\
  (exists v',
     round (configure cycle stationary [WithHeuristics])
       {| x := of_Z (-1); nIter := 3; resultLookup := [of_Z 2] |}
     = (Continue v', [Call (CallFx (of_Z (-1))); Call (CallDfx (of_Z (-1)))]) /\
     x v' = of_Z (-1) - (c0_1 * of_Z (-1) - c0_1) /\
     nIter v' = 3%Z /\ resultLookup v' = [of_Z 2]).
Proof.
  split.
  - destruct (proj1 (infinity_recovery
                       (configure stationary dstationary [WithHeuristics])
                       (init (of_Z 0)) eq_refl) eq_refl)
      as (v' & Hrun & Hx & Hk & Hm & _).
    exists v'. repeat split; assumption.
  - destruct (proj1 (proj2 (infinity_recovery
                       (configure cycle stationary [WithHeuristics])
                       {| x := of_Z (-1); nIter := 3; resultLookup := [of_Z 2] |}
                       eq_refl)) eq_refl)
      as (v' & Hrun & Hx & Hk & Hm & _).
    exists v'. repeat split; assumption.
Defined.

(** Lines 114 to 125 by their results: the candidate is the new [x], the
    counter is one more, the map is left alone, and the convergence
    condition is evaluated or not. *)
Lemma accept_vars (n : Finder) (v : vars) (xNew : float64) :
  exists v' tests,
    (fst (accept n v xNew) = Continue v' \/ fst (accept n v xNew) = Break v') /\
    snd (accept n v xNew) = Accepted xNew :: tests /\
    (tests = [] \/ tests = [ConvTest xNew; Call (CallFx xNew)]) /\
    x v' = xNew /\ nIter v' = GoInt.incr (nIter v) /\
    resultLookup v' = resultLookup v.
Proof.
  pose proof (accept_paths n v xNew) as Hp.
  destruct (accept n v xNew) as [o tr]. cbn [fst snd] in *.
  destruct Hp.
  - exists (advance v xNew), [].
    split; [left; reflexivity|]. split; [reflexivity|].
    split; [left; reflexivity|]. repeat split.
  - exists (advance v xNew), [ConvTest xNew; Call (CallFx xNew)].
    split; [right; reflexivity|]. split; [reflexivity|].
    split; [right; reflexivity|]. repeat split.
  - exists (advance v xNew), [ConvTest xNew; Call (CallFx xNew)].
    split; [left; reflexivity|]. split; [reflexivity|].
    split; [right; reflexivity|]. repeat split.
Qed.

(** The ways through lines 99 to 111 behind the guards. *)
Lemma round_cycle (n : Finder) (v : vars) :
  let xNew := fst (candidate n v) in
  let calls := map Call (snd (candidate n v)) in
  useHeuristics n = true ->
  is_finite xNew = true ->
  (xNew >? xMax n) = false -> (xNew <? xMin n) = false ->
  ((Abs (xNew - x v) >? c1e_15) = true ->
   (map_mem xNew (resultLookup v) = true ->
    round n v = (Continue (set_x v ((xNew + x v) / c2)),
                 calls ++ [MapGet xNew])) /\
   (map_mem xNew (resultLookup v) = false ->
    round n v = (fst (accept n (remember v xNew) xNew),
                 calls ++ MapGet xNew :: MapPut xNew
                   :: snd (accept n (remember v xNew) xNew)) /\
    resultLookup (remember v xNew) = xNew :: resultLookup v)) /\
  ((Abs (xNew - x v) <=? c1e_15) = true ->
   round n v = (fst (accept n v xNew), calls ++ snd (accept n v xNew))).
Proof.
  intros xNew calls Hh Hfin Hhi Hlo.
  assert (Hinf : IsInf xNew 0 = false) by (destruct xNew; try discriminate; reflexivity).
  assert (Hr : round n v = (fst (heuristics n v xNew),
                            calls ++ snd (heuristics n v xNew))).
  { apply round_heuristics; fold xNew; auto.
    rewrite IsNaN_is_nan. destruct xNew; try discriminate; reflexivity. }
  rewrite Hr. unfold heuristics. rewrite Hh, Hinf.
  split.
  - intros Hfar. rewrite Hfar, bind_tell. cbn [fst snd].
    split.
    + intros ->. rewrite (apart_not_equal _ _ Hfar). reflexivity.
    + intros Hm. rewrite Hm. rewrite bind_tell. cbn [fst snd].
      split; [reflexivity|].
      unfold remember, map_put. cbn [resultLookup]. now rewrite Hm.
  - intros Hle. apply leb_not_gtb in Hle. rewrite Hle. reflexivity.
Qed.

(** C8. With the heuristics enabled and a candidate [xNew] that is finite
    and exceeds neither bound.  When [|xNew - x| > 1e-15], the map is asked
    for [xNew].  If it is there, then [xNew != x] holds (two numbers that
    far apart are never equal, so that the other branch, with
    [x + (0.1*x + 0.1)], is not taken), and the next pass starts with
    [(xNew + x) / 2] as its [x], the counter and the map unchanged and
    nothing accepted.  If it is not there, [xNew] is stored in the map and
    then accepted: it is the new [x], the counter is one more, and the map
    holds [xNew] in front of what it held.  When [|xNew - x| <= 1e-15],
    [xNew] is accepted likewise, without any access to the map.  Behind an
    acceptance the convergence condition is evaluated or not, and the loop
    goes on or is left. *)
Theorem cycle_detection (n : Finder) (v : vars) :
  let xNew := fst (candidate n v) in
  let calls := map Call (snd (candidate n v)) in
  useHeuristics n = true ->
  is_finite xNew = true ->
  (xNew >? xMax n) = false -> (xNew <? xMin n) = false ->
  ((Abs (xNew - x v) >? c1e_15) = true ->
   map_mem xNew (resultLookup v) = true ->
   (xNew != x v) = true /\
   exists v',
     round n v = (Continue v', calls ++ [MapGet xNew]) /\
     x v' = (xNew + x v) / c2 /\
     nIter v' = nIter v /\ resultLookup v' = resultLookup v /\
     accepted (snd (round n v)) = []) /\
  ((Abs (xNew - x v) >? c1e_15) = true ->
   map_mem xNew (resultLookup v) = false ->
   exists v' tests,
     (fst (round n v) = Continue v' \/ fst (round n v) = Break v') /\
     snd (round n v)
     = calls ++ [MapGet xNew; MapPut xNew; Accepted xNew] ++ tests /\
     (tests = [] \/ tests = [ConvTest xNew; Call (CallFx xNew)]) /\
     x v' = xNew /\
     ((0 <= nIter v < GoInt.MaxInt)%Z -> nIter v' = (nIter v + 1)%Z) /\
     resultLookup v' = xNew :: resultLookup v /\
     accepted (snd (round n v)) = [xNew]) /\
  ((Abs (xNew - x v) <=? c1e_15) = true ->
   exists v' tests,
     (fst (round n v) = Continue v' \/ fst (round n v) = Break v') /\
     snd (round n v) = calls ++ [Accepted xNew] ++ tests /\
     (tests = [] \/ tests = [ConvTest xNew; Call (CallFx xNew)]) /\
     x v' = xNew /\
     ((0 <= nIter v < GoInt.MaxInt)%Z -> nIter v' = (nIter v + 1)%Z) /\
     resultLookup v' = resultLookup v /\
     accepted (snd (round n v)) = [xNew]).
Proof.
  intros xNew calls Hh Hfin Hhi Hlo.
  destruct (round_cycle n v Hh Hfin Hhi Hlo) as [Hfar Hnear].
  fold xNew calls in Hfar, Hnear.
  assert (Hacc : forall tests,
            tests = [] \/ tests = [ConvTest xNew; Call (CallFx xNew)] ->
            accepted tests = []) by (intros tests [-> | ->]; reflexivity).
  split; [|split].
  - intros Hd Hm. destruct (Hfar Hd) as [Hseen _].
    split; [exact (apart_not_equal _ _ Hd)|].
    rewrite (Hseen Hm). eexists. split; [reflexivity|].
    cbn [set_x x nIter resultLookup snd]. repeat split.
    rewrite accepted_app. unfold calls. rewrite accepted_calls. reflexivity.
  - intros Hd Hm. destruct (Hfar Hd) as [_ Hnew].
    destruct (Hnew Hm) as [Hrun Hmap]. rewrite Hrun. cbn [fst snd].
    destruct (accept_vars n (remember v xNew) xNew)
      as (v' & tests & Ho & Htr & Htests & Hx & Hk & Hl).
    exists v', tests. rewrite Htr.
    split; [exact Ho|]. split; [reflexivity|]. split; [exact Htests|].
    split; [exact Hx|].
    split; [intros Hr; rewrite Hk; apply incr_small; exact Hr|].
    split; [rewrite Hl; exact Hmap|].
    rewrite accepted_app. unfold calls. rewrite accepted_calls.
    cbn [app accepted]. now rewrite (Hacc tests Htests).
  - intros Hd. rewrite (Hnear Hd). cbn [fst snd].
    destruct (accept_vars n v xNew)
      as (v' & tests & Ho & Htr & Htests & Hx & Hk & Hl).
    exists v', tests. rewrite Htr.
    split; [exact Ho|]. split; [reflexivity|]. split; [exact Htests|].
    split; [exact Hx|].
    split; [intros Hr; rewrite Hk; apply incr_small; exact Hr|].
    split; [exact Hl|].
    rewrite accepted_app. unfold calls. rewrite accepted_calls.
    cbn [app accepted]. now rewrite (Hacc tests Htests).
Qed.

Lemma cycle_detection_witness :
  (let v := {| x := of_Z 0; nIter := 2; resultLookup := [of_Z 0; of_Z 1] |} in
   exists v',
     round (configure cycle dcycle [WithHeuristics]) v
     = (Continue v',
        [Call (CallFx (of_Z 0)); Call (CallDfx (of_Z 0))] ++ [MapGet (of_Z 1)]) /\
     x v' = (of_Z 1 + of_Z 0) / c2 /\ nIter v' = 2%Z /\
     resultLookup v' = [of_Z 0; of_Z 1]) /\
  (let v := {| x := of_Z 0; nIter := 2; resultLookup := [of_Z 0] |} in
   exists v',
     fst (round (configure cycle dcycle [WithHeuristics]) v) = Continue v' /\
     x v' = of_Z 1 /\ nIter v' = 3%Z /\
     resultLookup v' = [of_Z 1; of_Z 0] /\
     accepted (snd (round (configure cycle dcycle [WithHeuristics]) v))
     = [of_Z 1]).
Proof.
  split.
  - intros v.
    destruct (proj1 (cycle_detection (configure cycle dcycle [WithHeuristics])
                       v eq_refl eq_refl eq_refl eq_refl) eq_refl eq_refl)
      as (_ & v' & Hrun & Hx & Hk & Hm & _).
    exists v'. repeat split; assumption.
  - intros v.
    destruct (proj1 (proj2 (cycle_detection
                       (configure cycle dcycle [WithHeuristics])
                       v eq_refl eq_refl eq_refl eq_refl)) eq_refl eq_refl)
      as (v' & tests & Ho & _ & _ & Hx & Hk & Hm & Hacc).
    exists v'. split.
    + destruct Ho as [Ho|Ho]; [exact Ho|].
      exfalso. vm_compute in Ho. discriminate Ho.
    + split; [exact Hx|]. split; [|split; assumption].
      apply Hk. unfold GoInt.MaxInt. cbn. lia.
Defined.

End GuardClaims.

(** ** The bounds *)

Section Bounds.

Import math root Paths Tests.
Local Open Scope f64_scope.

Variable n : Finder.

Lemma round_accepts_within (v : vars) (y : float64) :
  In y (accepted (snd (round n v))) -> passes_guards n y.
Proof.
  destruct (round_paths n v) as (tr & -> & Hpath).
  rewrite accepted_app, accepted_calls. cbn [app].
  inversion Hpath as [x' pre Hpre Ho | Hnan Ho | v0 pre acc o Hv0 Hnan Hb Hacc Ho];
    subst.
  - destruct Hpre; subst; intros [].
  - intros [].
  - assert (Ha : accepted (pre ++ acc) = [fst (candidate n v)]).
    { rewrite accepted_app.
      replace (accepted pre) with (@nil float64)
        by (destruct Hv0 as [[_ ->]|[_ ->]]; reflexivity).
      destruct Hacc; reflexivity. }
    rewrite Ha. intros [<-|[]]. split; assumption.
Qed.

Lemma rounds_accept_within (k : nat) : forall (v : vars) (y : float64),
  In y (accepted (snd (rounds k n v))) -> passes_guards n y.
Proof.
  induction k as [|k IH]; intros v y; [intros []|].
  rewrite rounds_S.
  destruct (fst (round n v)) as [v1| |] eqn:Ho; cbn [snd];
    try apply round_accepts_within.
  rewrite accepted_app. intros H. apply in_app_or in H.
  destruct H as [H|H]; [exact (round_accepts_within v y H) | exact (IH v1 y H)].
Qed.

End Bounds.

Section BoundClaims.

Import math root Paths Tests.
Local Open Scope f64_scope.

(** Two configurations that [WithLimits] accepts.  With [xMin = 10] and
    [xMax = 0] the finite candidate 5 exceeds [xMax] and is below [xMin];
    the pass from [x = 2] sets [x] to [0.5 * (x + xMax)], which is 1, and
    not to the mean 6 of [x] and [xMin]: the upper bound is looked at
    first.  With NaN for both bounds no comparison with a bound holds: the
    run accepts the finite candidate 5 five times and returns it, and
    neither [xMin <= 5] nor [5 <= xMax] holds. *)
Lemma bounds_counterexample :
  (let n := configure line5 dline5 [WithLimits (of_Z 10) (of_Z 0)] in
   let v := init (of_Z 2) in
   fst (candidate n v) = of_Z 5 /\
   is_finite (of_Z 5) = true /\
   (of_Z 5 >? xMax n) = true /\
   (of_Z 5 <? xMin n) = true /\
   c0_5 * (x v + xMin n) = of_Z 6 /\
   (x v + xMin n) / c2 = of_Z 6 /\
   c0_5 * (x v + xMax n) = of_Z 1 /\
   round n v
   = (Continue {| x := of_Z 1; nIter := 0; resultLookup := [] |},
      [Call (CallFx (of_Z 2)); Call (CallDfx (of_Z 2))])) /\
  (let n := configure line5 dline5 [WithLimits NaN NaN] in
   exists tr,
     Find 5 line5 dline5 (of_Z 0) [WithLimits NaN NaN] = (Some (of_Z 5), tr) /\
     accepted tr = [of_Z 5; of_Z 5; of_Z 5; of_Z 5; of_Z 5] /\
     (xMin n <=? of_Z 5) = false /\
     (of_Z 5 <=? xMax n) = false).
Proof.
  split.
  - repeat split.
  - eexists. split; [vm_compute; reflexivity|]. repeat split.
Qed.

(** C4 (amended). In every pass through the loop of [Find], a candidate
    that is no infinity and exceeds [xMax] makes the pass end behind the
    calls of the method with [0.5 * (x + xMax)] as the new [x] and the
    counter unchanged; a candidate that is no infinity, does not exceed
    [xMax] and is below [xMin] does the same with [0.5 * (x + xMin)].
    Consequently every accepted iterate that is no infinity is finite,
    does not exceed [xMax] and is not below [xMin]; when neither bound is
    NaN, this is [xMin <= x <= xMax]. *)
Theorem bound_clamp (fx dfx : float64 -> float64) (xInit : float64)
  (options : list option_fn) :
  let n := configure fx dfx options in
  (forall v,
     let xNew := fst (candidate n v) in
     IsInf xNew 0 = false -> (xNew >? xMax n) = true ->
     exists v',
       round n v = (Continue v', map Call (snd (candidate n v))) /\
       x v' = c0_5 * (x v + xMax n) /\
       nIter v' = nIter v /\ resultLookup v' = resultLookup v /\
       accepted (snd (round n v)) = []) /\
  (forall v,
     let xNew := fst (candidate n v) in
     IsInf xNew 0 = false -> (xNew >? xMax n) = false ->
     (xNew <? xMin n) = true ->
     exists v',
       round n v = (Continue v', map Call (snd (candidate n v))) /\
       x v' = c0_5 * (x v + xMin n) /\
       nIter v' = nIter v /\ resultLookup v' = resultLookup v /\
       accepted (snd (round n v)) = []) /\
  (forall k y,
     In y (accepted (snd (rounds k n (init xInit)))) ->
     IsInf y 0 = false ->
     is_finite y = true /\
     (y >? xMax n) = false /\ (y <? xMin n) = false /\
     (IsNaN (xMin n) = false -> IsNaN (xMax n) = false ->
      (xMin n <=? y) = true /\ (y <=? xMax n) = true)).
Proof.
  intros n. split; [|split].
  - intros v xNew Hinf Hhi.
    rewrite (round_excess_upper n v Hinf Hhi). eexists.
    split; [reflexivity|]. cbn [set_x x nIter resultLookup snd].
    repeat split. apply accepted_calls.
  - intros v xNew Hinf Hhi Hlo.
    rewrite (round_excess_lower n v Hinf Hhi Hlo). eexists.
    split; [reflexivity|]. cbn [set_x x nIter resultLookup snd].
    repeat split. apply accepted_calls.
  - intros k y Hin Hinf.
    destruct (rounds_accept_within n k _ _ Hin) as [Hnan Hb].
    destruct (Hb Hinf) as [Hhi Hlo].
    rewrite IsNaN_is_nan in Hnan.
    split; [destruct y as [|[|]| |]; try discriminate; reflexivity|].
    split; [exact Hhi|]. split; [exact Hlo|].
    rewrite !IsNaN_is_nan. intros Hmin Hmax.
    split; apply not_gtb_leb; assumption.
Qed.

(** With the limits [0, 3]: the
    first candidate 5 exceeds [xMax], and the pass restarts from 1.5. *)
Example upper_excess_halves :
  round (configure line5 dline5 [WithLimits (of_Z 0) (of_Z 3)]) (init (of_Z 0))
  = (Continue {| x := c0_5 * of_Z 3; nIter := 0; resultLookup := [] |},
     [Call (CallFx (of_Z 0)); Call (CallDfx (of_Z 0))]).
Proof. reflexivity. Qed.

End BoundClaims.

(** ** The runs of the tests *)

Section TestRuns.

Import math root Paths Tests.
Local Open Scope f64_scope.

(** [TestNewtonTable], case SquareRoot2, with both methods: the result is
    a finite number with [|fx(x)| < 1e-9]. *)
Example Find_square_root (m : Method) :
  m = NewtonRaphson \/ m = Homeier ->
  exists r tr,
    Find 10 square612 dsquare612 (of_Z 10) [WithHeuristics; WithMethod m]
      = (Some r, tr) /\
    is_finite r = true /\ (Abs (square612 r) <? c1e_9) = true.
Proof.
  intros [->| ->]; eexists; eexists;
    (split; [vm_compute; reflexivity|]); split; vm_compute; reflexivity.
Qed.

(** [TestTableHeuristics]: from the stationary point 0 of [1 - x*x] and
    from the cycle between 0 and 1 of [x*x*x - 2x + 2], the heuristics
    lead to a finite result with [|fx(x)| < 1e-9]. *)
Example Find_leaves_stationary_point :
  exists r tr,
    Find 30 stationary dstationary (of_Z 0) [WithHeuristics] = (Some r, tr) /\
    is_finite r = true /\ (Abs (stationary r) <? c1e_9) = true.
Proof.
  eexists; eexists; (split; [vm_compute; reflexivity|]);
    split; vm_compute; reflexivity.
Qed.

Example Find_leaves_cycle :
  exists r tr,
    Find 40 cycle dcycle (of_Z 0) [WithHeuristics] = (Some r, tr) /\
    is_finite r = true /\ (Abs (cycle r) <? c1e_9) = true.
Proof.
  eexists; eexists; (split; [vm_compute; reflexivity|]);
    split; vm_compute; reflexivity.
Qed.

(** Without the heuristics the first run ends in NaN in its second pass
    and the second one stays in the cycle until [maxIterations]. *)
Example Find_stationary_point_plain :
  fst (Find 30 stationary dstationary (of_Z 0) []) = Some NaN.
Proof. vm_compute. reflexivity. Qed.

Example Find_cycle_plain :
  fst (Find 30 cycle dcycle (of_Z 0) []) = Some (of_Z 1) /\
  accepted_count (snd (Find 30 cycle dcycle (of_Z 0) [])) = 25%Z.
Proof. split; vm_compute; reflexivity. Qed.

End TestRuns.

(** * Further properties of the package [root] *)

(** ** Composition of the options *)

Section OptionLists.

Import math root Options.

Lemma fold_options (os : list opt) : forall m : Finder,
  fold_left (fun obj option => option obj) (map option_of os) m
  = {| fx := fx m; dfx := dfx m;
       method := last_setting sets_method (method m) os;
       xMin := last_setting sets_xMin (xMin m) os;
       xMax := last_setting sets_xMax (xMax m) os;
       minIterations := last_setting sets_min (minIterations m) os;
       maxIterations := last_setting sets_max (maxIterations m) os;
       targetPrecision := last_setting sets_precision (targetPrecision m) os;
       useHeuristics := last_setting sets_heuristics (useHeuristics m) os |}.
Proof.
  induction os as [|o os IH]; intros m.
  - destruct m. reflexivity.
  - cbn [map fold_left]. rewrite IH. destruct o; reflexivity.
Qed.

(** X1. The Finder that [Find] builds from a list of options of options.go
    holds the closures it was given and, in every other field, the value of
    the last option of the list that sets the field, or the default when
    there is none: [NewtonRaphson], the limits [-MaxFloat64] and
    [MaxFloat64], 5 and 25 iterations, the precision 1e-9, no heuristics.
    In particular no option of the list switches the heuristics off. *)
Theorem options_last_wins (fx dfx : float64 -> float64) (os : list opt) :
  configure fx dfx (map option_of os)
  = {| root.fx := fx; root.dfx := dfx;
       method := last_setting sets_method NewtonRaphson os;
       xMin := last_setting sets_xMin (SFopp MaxFloat64) os;
       xMax := last_setting sets_xMax MaxFloat64 os;
       minIterations := last_setting sets_min 5%Z os;
       maxIterations := last_setting sets_max 25%Z os;
       targetPrecision := last_setting sets_precision c1e_9 os;
       useHeuristics := last_setting sets_heuristics false os |}.
Proof. unfold configure. rewrite fold_options. reflexivity. Qed.

(** The options of [TestOptions], and the same with a second limit. *)
Example options_of_TestOptions :
  let n := configure Tests.square612 Tests.dsquare612
             (map option_of [Heuristics; UseMethod Homeier; MinIterations 5;
                             MaxIterations 25; TargetPrecision c1e_9;
                             Limits (of_Z (-7)) (of_Z 7); MaxIterations 3;
                             Limits (of_Z (-9)) (of_Z 9)]) in
  maxIterations n = 3%Z /\ xMax n = of_Z 9 /\ useHeuristics n = true.
Proof. repeat split. Qed.

End OptionLists.

(** ** Runs without retries *)

Section PlainRuns.

Import math root Paths Rounds.
Local Open Scope Z_scope.

Lemma digits2_pos_bound (m : positive) :
  Zpos m < 2 ^ Zpos (digits2_pos m).
Proof.
  induction m as [m IH|m IH|]; cbn [digits2_pos];
    rewrite ?Pos2Z.inj_succ, ?Z.pow_succ_r by lia; lia.
Qed.

Lemma compare_cont_Z (a b : positive) :
  Pos.compare_cont Eq a b = Z.compare (Zpos a) (Zpos b).
Proof. reflexivity. Qed.

(** A finite binary64 number lies between [-MaxFloat64] and [MaxFloat64]. *)
Lemma binary64_within_MaxFloat64 (c : float64) :
  is_binary64 c = true -> IsInf c 0 = false ->
  (c >? MaxFloat64)%f64 = false /\ (c <? SFopp MaxFloat64)%f64 = false.
Proof.
  destruct c as [s|s| |s m e]; intros Hv Hinf;
    try (split; reflexivity); try (destruct s; discriminate Hinf).
  unfold is_binary64, valid_binary, bounded, canonical_mantissa in Hv.
  apply andb_true_iff in Hv. destruct Hv as [Hc He].
  apply Z.eqb_eq in Hc. apply Z.leb_le in He.
  unfold fexp, SpecFloat.emin, prec, emax in Hc, He.
  assert (Hm : e = 971 -> Zpos m <= 9007199254740991).
  { intros ->. assert (Hd : Zpos (digits2_pos m) = 53) by lia.
    pose proof (digits2_pos_bound m) as Hb. rewrite Hd in Hb.
    change (2 ^ 53) with 9007199254740992 in Hb. lia. }
  unfold gtb, ltb, SFltb, MaxFloat64. cbn [SFopp negb SFcompare].
  rewrite !compare_cont_Z.
  destruct s.
  - split; [reflexivity|].
    destruct (Z.compare_spec e 971) as [He'|He'|He']; try reflexivity; [|lia].
    specialize (Hm He').
    destruct (Z.compare_spec (Zpos m) 9007199254740991); try reflexivity; lia.
  - split; [|reflexivity].
    destruct (Z.compare_spec 971 e) as [He'|He'|He']; try reflexivity; [|lia].
    specialize (Hm (eq_sym He')).
    destruct (Z.compare_spec 9007199254740991 (Zpos m)); try reflexivity; lia.
Qed.

Variable n : Finder.

(** A NaN candidate: the pass returns NaN. *)
Lemma round_NaN (v : vars) :
  IsNaN (fst (candidate n v)) = true ->
  round n v = (ReturnNaN, map Call (snd (candidate n v))).
Proof.
  intros Hnan. rewrite round_unfold. unfold excess_guard, nan_guard.
  rewrite Hnan. apply IsNaN_true in Hnan. rewrite Hnan.
  rewrite NaN_gtb, NaN_ltb. cbn [IsInf NaN negb ret fst snd].
  now rewrite app_nil_r.
Qed.

(** Without the heuristics, a candidate behind the guards is accepted. *)
Lemma round_plain_accept (v : vars) :
  useHeuristics n = false ->
  IsNaN (fst (candidate n v)) = false ->
  (IsInf (fst (candidate n v)) 0 = false ->
   (fst (candidate n v) >? xMax n)%f64 = false /\
   (fst (candidate n v) <? xMin n)%f64 = false) ->
  round n v = (fst (accept n v (fst (candidate n v))),
               map Call (snd (candidate n v))
                 ++ snd (accept n v (fst (candidate n v)))).
Proof.
  intros Hh Hnan Hb. rewrite (round_heuristics n v Hnan Hb).
  unfold heuristics. rewrite Hh. reflexivity.
Qed.

Hypothesis min_in_range : GoInt.in_range (minIterations n).
Hypothesis max_in_range : GoInt.in_range (maxIterations n).

Lemma most_steps_spec :
  Z.of_nat (most_steps n) = Z.max 1 (Z.max (minIterations n) (maxIterations n)) /\
  Z.of_nat (most_steps n) <= GoInt.MaxInt.
Proof.
  unfold most_steps. rewrite Z2Nat.id by lia.
  destruct min_in_range as [_ H1]. destruct max_in_range as [_ H2].
  split; [reflexivity|]. unfold GoInt.MaxInt in *. lia.
Qed.

(** An accepted step below the bound of [most_steps] either leaves the
    loop or stays below the bound. *)
Lemma accept_progress (v : vars) (xNew : float64) :
  0 <= nIter v < Z.of_nat (most_steps n) ->
  match fst (accept n v xNew) with
  | Continue v' => nIter v' = nIter v + 1 /\ nIter v' < Z.of_nat (most_steps n)
  | Break v' => nIter v' = nIter v + 1 /\ x v' = xNew
  | ReturnNaN => False
  end /\
  accepted (snd (accept n v xNew)) = [xNew].
Proof.
  intros Hc. destruct most_steps_spec as [HK HKmax].
  assert (Hn : nIter (advance v xNew) = nIter v + 1)
    by (cbn [advance nIter]; apply incr_small; lia).
  destruct (accept_paths n v xNew) as [Hlt | Hge Hconv | Hge Hconv];
    (split; [|reflexivity]).
  - split; [exact Hn|]. lia.
  - split; [exact Hn | reflexivity].
  - split; [exact Hn|]. unfold converged in Hconv.
    apply orb_false_elim in Hconv. destruct Hconv as [_ Hconv]. lia.
Qed.

End PlainRuns.

Section PlainRunClaims.

Import math root Paths Rounds.
Local Open Scope Z_scope.

Lemma plain_rounds_return (n : Finder) :
  useHeuristics n = false ->
  xMin n = SFopp MaxFloat64 -> xMax n = MaxFloat64 ->
  (forall x, is_binary64 x = true ->
     is_binary64 (fst (apply_method (method n) x (fx n) (dfx n))) = true) ->
  GoInt.in_range (minIterations n) -> GoInt.in_range (maxIterations n) ->
  forall (k : nat) (v : vars),
    is_binary64 (x v) = true ->
    0 <= nIter v < Z.of_nat (most_steps n) ->
    Z.of_nat (most_steps n) <= nIter v + Z.of_nat k ->
    returned (fst (rounds k n v)) <> None /\
    nIter v + accepted_count (snd (rounds k n v)) <= Z.of_nat (most_steps n).
Proof.
  intros Hh Hlo Hhi Hvalid Hmin Hmax.
  induction k as [|k IH]; intros v Hx Hc Hk; [lia|].
  rewrite rounds_S.
  destruct (IsNaN (fst (candidate n v))) eqn:Hnan.
  - rewrite (round_NaN n v Hnan). cbn [fst snd returned].
    split; [discriminate|].
    unfold accepted_count. rewrite accepted_calls. cbn [length]. lia.
  - assert (Hcand : is_binary64 (fst (candidate n v)) = true)
      by (apply Hvalid; exact Hx).
    assert (Hb : IsInf (fst (candidate n v)) 0 = false ->
                 (fst (candidate n v) >? xMax n)%f64 = false /\
                 (fst (candidate n v) <? xMin n)%f64 = false).
    { rewrite Hlo, Hhi. apply binary64_within_MaxFloat64. exact Hcand. }
    rewrite (round_plain_accept n v Hh Hnan Hb). cbn [fst snd].
    destruct (accept_progress n Hmin Hmax v (fst (candidate n v)) Hc)
      as [Hstep Hacc].
    assert (Hone : accepted_count
                     (map Call (snd (candidate n v))
                        ++ snd (accept n v (fst (candidate n v)))) = 1).
    { unfold accepted_count.
      rewrite accepted_app, accepted_calls, Hacc. reflexivity. }
    assert (Hx' : forall v', vars_of (fst (accept n v (fst (candidate n v))))
                             = Some v' -> x v' = fst (candidate n v)).
    { intros v'. destruct (accept_paths n v (fst (candidate n v)));
        intros [= <-]; reflexivity. }
    destruct (fst (accept n v (fst (candidate n v)))) as [v'|v'|];
      cbn [fst snd returned]; [| |contradiction].
    + destruct Hstep as [Hn Hlt].
      destruct (IH v') as [Hret Hcount];
        [rewrite (Hx' v' eq_refl); exact Hcand | lia | lia |].
      split; [exact Hret|].
      rewrite accepted_count_app, Hone. lia.
    + split; [discriminate|]. rewrite Hone. lia.
Qed.

(** X2. With the heuristics off and the default limits [-MaxFloat64] and
    [MaxFloat64], no pass through the loop is a retry: whatever [fx], [dfx]
    and the initial value are, [Finder.loop] returns within
    max(1, minIterations, maxIterations) passes, and it accepts at most
    that many steps.  (The initial value is a binary64 number and the
    method maps binary64 numbers to binary64 numbers; [minIterations] and
    [maxIterations] are values of Go's type [int].) *)
Theorem loop_returns_without_retries (n : Finder) (xInit : float64) :
  useHeuristics n = false ->
  xMin n = SFopp MaxFloat64 -> xMax n = MaxFloat64 ->
  is_binary64 xInit = true ->
  (forall x, is_binary64 x = true ->
     is_binary64 (fst (apply_method (method n) x (fx n) (dfx n))) = true) ->
  GoInt.in_range (minIterations n) -> GoInt.in_range (maxIterations n) ->
  (exists r, fst (loop (most_steps n) n xInit) = Some r) /\
  accepted_count (snd (loop (most_steps n) n xInit)) <= Z.of_nat (most_steps n).
Proof.
  intros Hh Hlo Hhi Hx Hvalid Hmin Hmax.
  destruct (most_steps_spec n Hmin Hmax) as [HK _].
  destruct (plain_rounds_return n Hh Hlo Hhi Hvalid Hmin Hmax
              (most_steps n) (init xInit)) as [Hret Hcount];
    cbn [init nIter x]; try lia; try exact Hx.
  cbn [init nIter] in Hcount.
  unfold loop, bind, ret.
  destruct (rounds (most_steps n) n (init xInit)) as [o tr].
  cbn [fst snd] in *. rewrite app_nil_r. split; [|lia].
  destruct (returned o) as [r|]; [eauto | contradiction].
Qed.

Lemma loop_returns_without_retries_witness :
  exists r,
    fst (loop 25 (configure Tests.line5 Tests.dline5
                    [WithMethod (fun _ _ _ => ret (of_Z 5))])
              (of_Z 0)) = Some r.
Proof.
  refine (proj1 (loop_returns_without_retries
                   (configure Tests.line5 Tests.dline5
                      [WithMethod (fun _ _ _ => ret (of_Z 5))])
                   (of_Z 0) eq_refl eq_refl eq_refl eq_refl _ _ _)).
  - intros x _. reflexivity.
  - unfold GoInt.in_range; vm_compute; intuition discriminate.
  - unfold GoInt.in_range; vm_compute; intuition discriminate.
Defined.

End PlainRunClaims.

(** ** Runs from a root *)

Section RootRuns.

Import math root Paths Rounds.

Lemma sub_self_finite (s : bool) (m : positive) (e : Z) :
  (S754_finite s m e - S754_finite s m e)%f64 = S754_zero false.
Proof. unfold sub, SFsub. rewrite Z.sub_diag. reflexivity. Qed.

(** A step of either method from a root with a derivative that is neither
    zero nor NaN leads to the root. *)
Lemma step_at_root (m : Method) (x0 : float64) (fx dfx : float64 -> float64) :
  m = NewtonRaphson \/ m = Homeier ->
  is_finite x0 = true -> (x0 == S754_zero false)%f64 = false ->
  (fx x0 == S754_zero false)%f64 = true ->
  (dfx x0 == S754_zero false)%f64 = false -> IsNaN (dfx x0) = false ->
  fst (apply_method m x0 fx dfx) = x0.
Proof.
  intros Hm Hfin Hnz Hf Hd Hdn. rewrite IsNaN_is_nan in Hdn.
  assert (Hx : exists s mx ex, x0 = S754_finite s mx ex).
  { destruct x0 as [s|s| |s mx ex]; try discriminate; eauto. }
  destruct Hx as (s & mx & ex & ->).
  assert (Hz : exists sf, fx (S754_finite s mx ex) = S754_zero sf).
  { destruct (fx (S754_finite s mx ex)) as [sf|sf| |sf mf ef];
      try discriminate; eauto; destruct sf; discriminate. }
  destruct Hz as (sf & Hz).
  destruct Hm as [-> | ->];
    [rewrite NewtonRaphson_run | rewrite Homeier_run]; cbn [fst];
    rewrite Hz; cbn [mul SFmul c0_5];
    destruct (dfx (S754_finite s mx ex)) as [sd|sd| |sd md ed] eqn:Ed;
    try discriminate; try (destruct sd; discriminate);
    cbn [div SFdiv sub SFsub]; rewrite ?Ed; reflexivity.
Qed.

Variable n : Finder.
Variable x0 : float64.

Hypothesis method_known : method n = NewtonRaphson \/ method n = Homeier.
Hypothesis x0_finite : is_finite x0 = true.
Hypothesis x0_nonzero : (x0 == S754_zero false)%f64 = false.
Hypothesis x0_root : (fx n x0 == S754_zero false)%f64 = true.
Hypothesis slope_nonzero : (dfx n x0 == S754_zero false)%f64 = false.
Hypothesis slope_number : IsNaN (dfx n x0) = false.
Hypothesis x0_below_xMax : (x0 >? xMax n)%f64 = false.
Hypothesis x0_above_xMin : (x0 <? xMin n)%f64 = false.
Hypothesis precision_positive : (S754_zero false <? targetPrecision n)%f64 = true.
Hypothesis min_in_range : GoInt.in_range (minIterations n).

Lemma root_candidate (v : vars) : x v = x0 -> fst (candidate n v) = x0.
Proof.
  intros Hx. unfold candidate. rewrite Hx. now apply step_at_root.
Qed.

Lemma root_round (v : vars) :
  x v = x0 ->
  round n v = (fst (accept n v x0),
               map Call (snd (candidate n v)) ++ snd (accept n v x0)).
Proof.
  intros Hx.
  assert (Hnan : is_nan x0 = false) by (destruct x0; try discriminate; reflexivity).
  assert (Hinf : IsInf x0 0 = false) by (destruct x0; try discriminate; reflexivity).
  rewrite (round_heuristics n v); rewrite (root_candidate v Hx);
    [| rewrite IsNaN_is_nan; exact Hnan | auto].
  unfold heuristics. rewrite Hinf, Hx.
  assert (Hnear : (Abs (x0 - x0) >? c1e_15)%f64 = false).
  { destruct x0 as [s|s| |s m e]; try discriminate.
    rewrite sub_self_finite. reflexivity. }
  rewrite Hnear. destruct (useHeuristics n); reflexivity.
Qed.

Lemma root_converged (v : vars) : converged n (advance v x0) = true.
Proof.
  unfold converged. cbn [advance x].
  assert (Hz : Abs (fx n x0) = S754_zero false).
  { destruct (fx n x0) as [sf|sf| |sf mf ef]; try discriminate;
      try reflexivity; destruct sf; discriminate. }
  rewrite Hz, precision_positive. reflexivity.
Qed.

Lemma root_rounds (k : nat) : forall v : vars,
  x v = x0 -> (0 <= nIter v)%Z ->
  (nIter v + Z.of_nat (S k) = Z.of_nat (first_test n))%Z ->
  (exists v', fst (rounds (S k) n v) = Break v' /\ x v' = x0) /\
  accepted (snd (rounds (S k) n v)) = repeat x0 (S k).
Proof.
  assert (HT : (Z.of_nat (first_test n) = Z.max 1 (minIterations n)
               /\ Z.of_nat (first_test n) <= GoInt.MaxInt)%Z).
  { unfold first_test. rewrite Z2Nat.id by lia.
    destruct min_in_range as [_ H]. unfold GoInt.MaxInt in *. lia. }
  destruct HT as [HT HTmax].
  induction k as [|k IH]; intros v Hx Hc Hk; rewrite rounds_S, (root_round v Hx);
    cbn [fst snd];
    assert (Hn : nIter (advance v x0) = (nIter v + 1)%Z)
      by (cbn [advance nIter]; apply incr_small; lia);
    pose proof (root_converged v) as Hconv;
    pose proof (accept_paths n v x0) as Hp;
    destruct (accept n v x0) as [o tr]; cbn [fst snd] in *;
    destruct Hp as [Hlt | Hge _ | Hge Hno];
    try congruence; try lia.
  - cbn [fst snd]. split; [eexists; split; reflexivity|].
    rewrite accepted_app, accepted_calls. reflexivity.
  - cbn [fst snd].
    destruct (IH (advance v x0)) as [Hbrk Hacc]; [reflexivity | lia | lia |].
    split; [exact Hbrk|].
    rewrite !accepted_app, accepted_calls, Hacc. reflexivity.
Qed.

End RootRuns.

Section RootRunClaims.

Import math root Paths Rounds Tests.

(** X3. Started at a finite nonzero [x0] with [fx(x0) == 0], a derivative
    [dfx(x0)] that is neither zero nor NaN, [x0] within the limits and a
    positive target precision, [Finder.loop] with the method
    [NewtonRaphson] or [Homeier], with or without the heuristics, accepts
    [x0] in every pass and returns [x0] after max(1, minIterations) passes,
    whatever [maxIterations] is. *)
Theorem root_is_returned (n : Finder) (x0 : float64) :
  method n = NewtonRaphson \/ method n = Homeier ->
  is_finite x0 = true -> (x0 == S754_zero false)%f64 = false ->
  (fx n x0 == S754_zero false)%f64 = true ->
  (dfx n x0 == S754_zero false)%f64 = false -> IsNaN (dfx n x0) = false ->
  (x0 >? xMax n)%f64 = false -> (x0 <? xMin n)%f64 = false ->
  (S754_zero false <? targetPrecision n)%f64 = true ->
  GoInt.in_range (minIterations n) ->
  fst (loop (first_test n) n x0) = Some x0 /\
  accepted (snd (loop (first_test n) n x0)) = repeat x0 (first_test n).
Proof.
  intros Hm Hfin Hnz Hroot Hd Hdn Hhi Hlo Hp Hmin.
  assert (HT : exists k, first_test n = S k).
  { unfold first_test. destruct (Z.to_nat (Z.max 1 (minIterations n))) eqn:E;
      [lia | eauto]. }
  destruct HT as [k HT].
  destruct (root_rounds n x0 Hm Hfin Hnz Hroot Hd Hdn Hhi Hlo Hp Hmin k (init x0))
    as [(v' & Hbrk & Hx) Hacc]; [reflexivity | cbn; lia | cbn; lia |].
  unfold loop, bind, ret. rewrite HT.
  destruct (rounds (S k) n (init x0)) as [o tr]. cbn [fst snd] in *.
  rewrite app_nil_r, Hbrk. cbn [returned]. rewrite Hx. split; [reflexivity | exact Hacc].
Qed.

Lemma root_is_returned_witness :
  fst (loop 5 (configure line5 dline5 [WithHeuristics]) (of_Z 5)) = Some (of_Z 5).
Proof.
  refine (proj1 (root_is_returned (configure line5 dline5 [WithHeuristics])
                   (of_Z 5) (or_introl eq_refl) eq_refl eq_refl eq_refl
                   eq_refl eq_refl eq_refl eq_refl eq_refl _)).
  unfold GoInt.in_range; vm_compute; intuition discriminate.
Defined.

End RootRunClaims.

(** ** Retries without end *)

Section Retries.

Import math root Paths.
Local Open Scope f64_scope.

(** The order of the comparisons is transitive. *)
Lemma SFcompare_le_lt_trans (a b c : float64) :
  SFcompare a b = Some Lt \/ SFcompare a b = Some Eq ->
  SFcompare b c = Some Lt -> SFcompare a c = Some Lt.
Proof.
  destruct a as [sa|sa| |sa ma ea], b as [sb|sb| |sb mb eb],
           c as [sc|sc| |sc mc ec];
    cbn [SFcompare]; rewrite ?compare_cont_Z;
    try (intros [H|H]; discriminate H);
    try (intros _ H; discriminate H);
    try (destruct sa; destruct sb; destruct sc;
         intros [H|H] H'; try discriminate H; try discriminate H';
         reflexivity).
  all: destruct sa, sb, sc; intros [H|H] H';
    try discriminate H; try discriminate H'; try reflexivity.
  all: revert H H';
    destruct (Z.compare_spec ea eb), (Z.compare_spec eb ec),
             (Z.compare_spec ea ec);
    try discriminate; try (intros; exfalso; lia); try reflexivity;
    destruct (Z.compare_spec (Zpos ma) (Zpos mb)),
             (Z.compare_spec (Zpos mb) (Zpos mc)),
             (Z.compare_spec (Zpos ma) (Zpos mc));
    cbn [CompOpp]; try discriminate; try reflexivity;
    intros; exfalso; lia.
Qed.

(** Under limits with [xMax < xMin], a number that does not exceed [xMax]
    is below [xMin]. *)
Lemma inverted_limits_catch (c lo hi : float64) :
  is_nan c = false -> (hi <? lo) = true -> (c >? hi) = false ->
  (c <? lo) = true.
Proof.
  unfold gtb, ltb, SFltb. intros Hc Hinv Hnot.
  destruct (SFcompare hi lo) as [[| |]|] eqn:Ehl; try discriminate.
  destruct (SFcompare hi c) as [o|] eqn:Ehc.
  - apply SFcompare_antisym in Ehc.
    rewrite (SFcompare_le_lt_trans c hi lo); [reflexivity | | exact Ehl].
    rewrite Ehc. destruct o; cbn [CompOpp]; auto. discriminate.
  - apply SFcompare_None in Ehc. destruct Ehc as [Hn|Hn]; [|congruence].
    destruct hi; discriminate.
Qed.

Variable n : Finder.

(** With [xMax < xMin], a candidate that is neither NaN nor an infinity is
    never accepted: the pass is a retry. *)
Lemma inverted_limits_retry (v : vars) :
  (xMax n <? xMin n) = true ->
  is_finite (fst (candidate n v)) = true ->
  exists x', round n v
             = (Continue (set_x v x'), map Call (snd (candidate n v))).
Proof.
  intros Hinv Hfin.
  assert (Hinf : IsInf (fst (candidate n v)) 0 = false)
    by (destruct (fst (candidate n v)); try discriminate; reflexivity).
  destruct (fst (candidate n v) >? xMax n) eqn:Hhi.
  - eexists. apply round_excess_upper; assumption.
  - eexists. apply round_excess_lower; try assumption.
    apply (inverted_limits_catch _ _ (xMax n)); try assumption.
    destruct (fst (candidate n v)); try discriminate; reflexivity.
Qed.

End Retries.

Section RetryClaims.

Import math root Paths Tests.
Local Open Scope f64_scope.

(** X4. With limits that are the wrong way round, [xMax < xMin], a run of
    [Finder.loop] whose candidates are all finite never leaves the loop
    and never accepts a step: every pass is a retry, so neither
    [maxIterations] nor anything else ends the run. *)
Theorem inverted_limits_never_return (n : Finder) (xInit : float64) :
  (xMax n <? xMin n) = true ->
  (forall k v, fst (rounds k n (init xInit)) = Continue v ->
     is_finite (fst (candidate n v)) = true) ->
  forall fuel,
    fst (loop fuel n xInit) = None /\
    accepted (snd (loop fuel n xInit)) = [].
Proof.
  intros Hinv Hfin fuel.
  assert (H : exists v, fst (rounds fuel n (init xInit)) = Continue v /\
                        accepted (snd (rounds fuel n (init xInit))) = []).
  { induction fuel as [|k IH]; [eexists; split; reflexivity|].
    destruct IH as (v & Hv & Hacc).
    destruct (inverted_limits_retry n v Hinv (Hfin k v Hv)) as [x' Hr].
    replace (S k) with (k + 1)%nat by lia.
    rewrite (rounds_add n k 1 (init xInit) v
               (snd (rounds k n (init xInit))))
      by (rewrite <- Hv; now destruct (rounds k n (init xInit))).
    rewrite rounds_S, Hr. cbn [fst snd rounds ret].
    eexists. split; [reflexivity|].
    rewrite !accepted_app, Hacc, accepted_calls. reflexivity. }
  destruct H as (v & Hv & Hacc).
  unfold loop, bind, ret.
  destruct (rounds fuel n (init xInit)) as [o tr]. cbn [fst snd] in *.
  rewrite Hv, app_nil_r. split; [reflexivity | exact Hacc].
Qed.

(** [x - 5] from 0 under the limits [10, 0]: every pass produces the
    candidate 5 and restarts from [0.5 * (0 + 0)]. *)
Lemma inverted_limits_run (k : nat) :
  fst (rounds k (configure line5 dline5 [WithLimits (of_Z 10) (of_Z 0)])
         (init (of_Z 0))) = Continue (init (of_Z 0)).
Proof.
  induction k as [|k IH]; [reflexivity|].
  replace (S k) with (k + 1)%nat by lia.
  rewrite (rounds_add _ k 1 (init (of_Z 0)) (init (of_Z 0))
             (snd (rounds k (configure line5 dline5
                               [WithLimits (of_Z 10) (of_Z 0)])
                     (init (of_Z 0)))))
    by (rewrite <- IH; now destruct (rounds k _ _)).
  reflexivity.
Qed.

Lemma inverted_limits_never_return_witness :
  fst (Find 1000 line5 dline5 (of_Z 0) [WithLimits (of_Z 10) (of_Z 0)]) = None.
Proof.
  refine (proj1 (inverted_limits_never_return
                   (configure line5 dline5 [WithLimits (of_Z 10) (of_Z 0)])
                   (of_Z 0) eq_refl _ 1000%nat)).
  intros k v Hv. rewrite inverted_limits_run in Hv.
  injection Hv as <-. reflexivity.
Defined.

(** X5. In the cycle detection of [Finder.loop] the branch for
    [xNew == x] (lines 103 to 105) is never taken: when the heuristics are
    on, the candidate is no infinity, [|xNew - x| > 1e-15] and [xNew] is
    found in the map, [x] becomes [(xNew + x) / 2]. *)
Theorem stationary_branch_is_dead (n : Finder) (v : vars) (xNew : float64) :
  useHeuristics n = true -> IsInf xNew 0 = false ->
  (Abs (xNew - x v) >? c1e_15) = true ->
  map_mem xNew (resultLookup v) = true ->
  (xNew != x v) = true /\
  heuristics n v xNew
  = (Continue (set_x v ((xNew + x v) / c2)), [MapGet xNew]).
Proof.
  intros Hh Hinf Hfar Hmem.
  pose proof (apart_not_equal _ _ Hfar) as Hne.
  split; [exact Hne|].
  unfold heuristics. rewrite Hh, Hinf, Hfar, bind_tell. cbn [fst snd].
  rewrite Hmem, Hne. reflexivity.
Qed.

Lemma stationary_branch_is_dead_witness :
  heuristics (configure cycle dcycle [WithHeuristics])
    {| x := of_Z 0; nIter := 2; resultLookup := [of_Z 0; of_Z 1] |} (of_Z 1)
  = (Continue {| x := c0_5; nIter := 2; resultLookup := [of_Z 0; of_Z 1] |},
     [MapGet (of_Z 1)]).
Proof.
  exact (proj2 (stationary_branch_is_dead
                  (configure cycle dcycle [WithHeuristics])
                  {| x := of_Z 0; nIter := 2; resultLookup := [of_Z 0; of_Z 1] |}
                  (of_Z 1) eq_refl eq_refl eq_refl eq_refl)).
Defined.

End RetryClaims.

(** * Properties of the package [numerics] *)

Section NaNArithmetic.

Local Open Scope f64_scope.

Lemma add_NaN_l (a : float64) : math.NaN + a = math.NaN.
Proof. reflexivity. Qed.
Lemma add_NaN_r (a : float64) : a + math.NaN = math.NaN.
Proof. destruct a; reflexivity. Qed.
Lemma sub_NaN_l (a : float64) : math.NaN - a = math.NaN.
Proof. reflexivity. Qed.
Lemma sub_NaN_r (a : float64) : a - math.NaN = math.NaN.
Proof. destruct a; reflexivity. Qed.
Lemma mul_NaN_l (a : float64) : math.NaN * a = math.NaN.
Proof. reflexivity. Qed.
Lemma mul_NaN_r (a : float64) : a * math.NaN = math.NaN.
Proof. destruct a; reflexivity. Qed.
Lemma div_NaN_l (a : float64) : math.NaN / a = math.NaN.
Proof. reflexivity. Qed.
Lemma div_NaN_r (a : float64) : a / math.NaN = math.NaN.
Proof. destruct a; reflexivity. Qed.

End NaNArithmetic.

Section BetaFunctions.

Import math numerics_beta Rounds.
Local Open Scope f64_scope.

(** X6. [smallestNonZero] never returns a zero: it maps the two zeros to
    the smallest positive float64, 2^-1074, and returns every other binary64
    number, the infinities and NaN unchanged, so that a division by its
    result is never a division by zero. *)
Theorem smallestNonZero_is_not_zero (val : float64) :
  (smallestNonZero val == c0) = false /\
  (is_zero val = true -> smallestNonZero val = SmallestNonzeroFloat64) /\
  (is_zero val = false -> is_binary64 val = true -> smallestNonZero val = val).
Proof.
  unfold smallestNonZero. split; [|split].
  - destruct val as [s|s| |s m e]; try reflexivity.
    + destruct s; reflexivity.
    + destruct (Abs (S754_finite s m e) <? SmallestNonzeroFloat64);
        [reflexivity | destruct s; reflexivity].
  - destruct val; try discriminate. reflexivity.
  - destruct val as [s|s| |s m e]; try discriminate; try reflexivity.
    intros _ Hv.
    unfold is_binary64, valid_binary, bounded, canonical_mantissa in Hv.
    apply andb_true_iff in Hv. destruct Hv as [Hc _].
    apply Z.eqb_eq in Hc. unfold fexp, SpecFloat.emin, prec, emax in Hc.
    unfold ltb, SFltb, Abs, SmallestNonzeroFloat64. cbn [SFabs SFcompare].
    rewrite compare_cont_Z.
    destruct (Z.compare_spec e (-1074)) as [He|He|He]; try reflexivity; [|lia].
    destruct (Z.compare_spec (Zpos m) 1); try reflexivity; lia.
Qed.

Lemma smallestNonZero_NaN : smallestNonZero NaN = NaN.
Proof. reflexivity. Qed.

(** With a NaN among [x], [a] and [b], no pass of the loop returns. *)
Lemma betacf_body_NaN (x a b : float64) (m : Z) (s : fraction) :
  IsNaN x || IsNaN a || IsNaN b = true ->
  exists s', betacf_body x a b m s = inr s'.
Proof.
  intros H.
  assert (Hn : SFopp (a + of_Z m) * (a + b + of_Z m) * x = NaN).
  { rewrite !IsNaN_is_nan in H.
    destruct x, a, b; try discriminate H;
      rewrite ?add_NaN_l, ?add_NaN_r, ?mul_NaN_l, ?mul_NaN_r;
      try reflexivity; cbn [SFopp]; rewrite ?mul_NaN_l; reflexivity. }
  unfold betacf_body. cbv zeta. rewrite Hn.
  repeat progress rewrite ?div_NaN_l, ?div_NaN_r, ?mul_NaN_l, ?add_NaN_r,
    ?sub_NaN_l, ?smallestNonZero_NaN.
  eexists. reflexivity.
Qed.

Lemma betacf_loop_NaN (x a b : float64) (k : nat) : forall (m : Z) (s : fraction),
  IsNaN x || IsNaN a || IsNaN b = true ->
  betacf_loop k x a b m s = NaN.
Proof.
  induction k as [|k IH]; intros m s H; [reflexivity|].
  cbn [betacf_loop]. destruct (betacf_body_NaN x a b m s H) as [s' ->].
  apply IH. exact H.
Qed.

Lemma betacf_NaN_x (a b : float64) : betacf NaN a b = NaN.
Proof. unfold betacf. cbv zeta. now apply betacf_loop_NaN. Qed.

(** X7. [betacf] returns NaN whenever one of its arguments is NaN: no pass
    of its loop meets the precision test, and the 200 passes are used
    up. *)
Theorem betacf_of_NaN (x a b : float64) :
  IsNaN x || IsNaN a || IsNaN b = true -> betacf x a b = NaN.
Proof. intros H. unfold betacf. cbv zeta. now apply betacf_loop_NaN. Qed.

Lemma betacf_of_NaN_witness : betacf (of_Z 1 / of_Z 2) NaN (of_Z 3) = NaN.
Proof. exact (betacf_of_NaN (of_Z 1 / of_Z 2) NaN (of_Z 3) eq_refl). Defined.

Variables Exp Log : float64 -> float64.
Variable math_Lgamma : float64 -> float64 * Z.

(** X8. Whatever [math.Exp], [math.Log] and [math.Lgamma] compute:
    [BetaIncompleteRegular] returns NaN for [x < 0] and for [x > 1], as
    its comment says, and also for an [x] that is NaN, which passes the
    test of the range and reaches [betacf]; [BetaIncomplete] then returns
    NaN as well. *)
Theorem BetaIncompleteRegular_out_of_range (x a b : float64) :
  (x <? c0) || (x >? c1) || IsNaN x = true ->
  BetaIncompleteRegular Exp Log math_Lgamma x a b = NaN /\
  BetaIncomplete Exp Log math_Lgamma x a b = NaN.
Proof.
  intros H.
  assert (Hr : BetaIncompleteRegular Exp Log math_Lgamma x a b = NaN).
  { unfold BetaIncompleteRegular.
    destruct ((x <? c0) || (x >? c1)) eqn:Hout; [reflexivity|].
    cbn [orb] in H. apply IsNaN_true in H. subst x.
    rewrite NaN_ltb. cbn [andb]. rewrite NaN_ltb, sub_NaN_r.
    rewrite betacf_NaN_x, mul_NaN_r, div_NaN_l, sub_NaN_r.
    reflexivity. }
  split; [exact Hr|].
  unfold BetaIncomplete. rewrite Hr. apply mul_NaN_l.
Qed.

End BetaFunctions.

Section BetaWitnesses.

Import math numerics_beta.
Local Open Scope f64_scope.

Lemma BetaIncompleteRegular_out_of_range_witness :
  BetaIncompleteRegular (fun y => y) (fun y => y) (fun y => (y, 1%Z))
    (of_Z 2) (of_Z 2) (of_Z 3) = NaN.
Proof.
  exact (proj1 (BetaIncompleteRegular_out_of_range
                  (fun y => y) (fun y => y) (fun y => (y, 1%Z))
                  (of_Z 2) (of_Z 2) (of_Z 3) eq_refl)).
Defined.

End BetaWitnesses.

(** * Properties of the histogram [H1D] *)

(** ** Slices *)

Section Slices.

Import hist.
Local Open Scope Z_scope.

Lemma wrap_small (z : Z) : GoInt.MinInt <= z <= GoInt.MaxInt -> GoInt.wrap z = z.
Proof.
  unfold GoInt.wrap, GoInt.MinInt, GoInt.MaxInt. intros H.
  rewrite Z.mod_small; lia.
Qed.

Lemma length_set_nth (s : list float64) : forall (i : nat) (a : float64),
  length (set_nth i a s) = length s.
Proof.
  induction s as [|b s IH]; intros [|i] a; cbn [set_nth length]; auto.
Qed.

Lemma nth_set_nth_same (s : list float64) : forall (i : nat) (a d : float64),
  (i < length s)%nat -> nth i (set_nth i a s) d = a.
Proof.
  induction s as [|b s IH]; intros [|i] a d H; cbn [length] in H;
    cbn [set_nth nth]; try lia; auto. apply IH. lia.
Qed.

Lemma nth_set_nth_other (s : list float64) : forall (i j : nat) (a d : float64),
  i <> j -> nth j (set_nth i a s) d = nth j s d.
Proof.
  induction s as [|b s IH]; intros [|i] [|j] a d H; cbn [set_nth nth];
    try reflexivity; try contradiction; auto.
Qed.

Lemma index_in (s : list float64) (i : Z) :
  0 <= i < Z.of_nat (length s) ->
  index s i = Ok (nth (Z.to_nat i) s (S754_zero false)).
Proof.
  intros H. unfold index.
  replace (0 <=? i) with true by (symmetry; apply Z.leb_le; lia).
  replace (i <? Z.of_nat (length s)) with true by (symmetry; apply Z.ltb_lt; lia).
  reflexivity.
Qed.

Lemma index_out (s : list float64) (i : Z) :
  i < 0 \/ Z.of_nat (length s) <= i -> index s i = Panics IndexOutOfRange.
Proof.
  intros H. unfold index.
  destruct (Z.leb_spec 0 i); destruct (Z.ltb_spec i (Z.of_nat (length s)));
    try reflexivity; lia.
Qed.

Lemma assign_in (s : list float64) (i : Z) (a : float64) :
  0 <= i < Z.of_nat (length s) ->
  assign s i a = Ok (set_nth (Z.to_nat i) a s).
Proof.
  intros H. unfold assign.
  replace (0 <=? i) with true by (symmetry; apply Z.leb_le; lia).
  replace (i <? Z.of_nat (length s)) with true by (symmetry; apply Z.ltb_lt; lia).
  reflexivity.
Qed.

Lemma add_content_in (h : H1D) (j : Z) (w : float64) :
  0 <= j < Z.of_nat (length (binContent h)) ->
  add_content h j w = Ok (with_content h (credited (binContent h) j w)).
Proof.
  intros H. unfold add_content.
  rewrite (index_in _ _ H). cbn [rbind]. rewrite (assign_in _ _ _ H).
  reflexivity.
Qed.

Lemma length_credited (content : list float64) (j : Z) (w : float64) :
  length (credited content j w) = length content.
Proof. apply length_set_nth. Qed.

End Slices.

(** ** [Fill] *)

Section FillFacts.

Import math hist.
Local Open Scope Z_scope.

Variable h : H1D.
Variable val : float64.
Variable weight : list float64.

Hypothesis wf : well_formed h.
Hypothesis some_bin : 1 <= nBins h.
Hypothesis one_weight : (length weight <= 1)%nat.

Let w : float64 := the_weight weight.
Let hc : H1D := counted h w.
Let n : Z := nBins h.

(** The histogram behind [h.binContent[j] += w]. *)
Let wc (j : Z) : H1D := with_content hc (credited (binContent h) j w).

Lemma edge_index (t : Z) :
  0 <= t <= n -> index (bins hc) t = Ok (edge_at h t).
Proof.
  intros Ht. destruct wf as (_ & _ & Hb & _). apply index_in.
  cbn [hc counted bins]. fold n in Hb. lia.
Qed.

Lemma credit_bin (j : Z) :
  0 <= j <= n + 1 -> add_content hc j w = Ok (wc j).
Proof.
  intros Hj. destruct wf as (_ & _ & _ & Hc & _). apply add_content_in.
  cbn [hc counted binContent]. fold n in Hc. lia.
Qed.

Lemma int_small (z : Z) : -1 <= z <= n + 1 -> GoInt.wrap z = z.
Proof.
  intros Hz. destruct wf as (_ & Hmax & _). fold n in Hmax.
  apply wrap_small. unfold GoInt.MinInt, GoInt.MaxInt in *. lia.
Qed.

(** The loop over the bins 1 to [n - 1], started at the edge [i]: it
    returns from the first bin [j] with [edge (j-1) <= val < edge j], or
    ends when there is no such bin. *)
Lemma scan_result (k : nat) : forall i : Z,
  0 <= i -> i + Z.of_nat k = n - 1 ->
  (exists j, i + 1 <= j <= n - 1 /\
     (edge_at h (j - 1) <=? val)%f64 = true /\
     (val <? edge_at h j)%f64 = true /\
     Fill_scan k hc val w i = Ok (Some (wc j)))
  \/
  (Fill_scan k hc val w i = Ok None /\
   forall t, i <= t < n - 1 ->
     (edge_at h t <=? val)%f64 && (val <? edge_at h (t + 1))%f64 = false).
Proof.
  induction k as [|k IH]; intros i Hi Hk.
  - right. split; [reflexivity|]. intros t Ht. lia.
  - cbn [Fill_scan].
    rewrite (edge_index i) by lia. cbn [rbind].
    rewrite (int_small (i + 1)) by lia.
    destruct (edge_at h i <=? val)%f64 eqn:Hlo.
    + rewrite (edge_index (i + 1)) by lia. cbn [rbind].
      destruct (val <? edge_at h (i + 1))%f64 eqn:Hhi.
      * left. exists (i + 1). rewrite (credit_bin (i + 1)) by lia.
        replace (i + 1 - 1) with i by lia.
        repeat split; try lia; assumption.
      * destruct (IH (i + 1)) as [(j & Hj & H1 & H2 & Hrun) | (Hrun & Hnone)];
          try lia.
        -- left. exists j. repeat split; try lia; assumption.
        -- right. split; [exact Hrun|]. intros t Ht.
           destruct (Z.eq_dec t i) as [->|Hne]; [now rewrite Hlo, Hhi|].
           apply Hnone. lia.
    + destruct (IH (i + 1)) as [(j & Hj & H1 & H2 & Hrun) | (Hrun & Hnone)];
        try lia.
      * left. exists j. repeat split; try lia; assumption.
      * right. split; [exact Hrun|]. intros t Ht.
        destruct (Z.eq_dec t i) as [->|Hne]; [now rewrite Hlo|].
        apply Hnone. lia.
Qed.

(** [Fill] behind its test of the weights, on the edges of the
    histogram. *)
Lemma Fill_unfold :
  Fill h val weight =
  if (val <? edge_at h 0)%f64 then Ok (wc 0)
  else if (val >? edge_at h n)%f64 then Ok (wc (n + 1))
  else
    r <-- Fill_scan (Z.to_nat (n - 1)) hc val w 0 ;;
    match r with
    | Some h' => Ok h'
    | None =>
        if (edge_at h (n - 1) <=? val)%f64 && (val <=? edge_at h n)%f64
        then Ok (wc n) else Ok hc
    end.
Proof.
  unfold Fill.
  replace (1 <? length weight)%nat with false
    by (symmetry; apply Nat.ltb_ge; exact one_weight).
  cbv zeta. fold w. fold hc. change (nBins hc) with n.
  rewrite (edge_index 0) by lia. cbn [rbind].
  destruct (val <? edge_at h 0)%f64; [apply credit_bin; lia|].
  rewrite (edge_index n) by lia. cbn [rbind].
  rewrite (int_small (n + 1)), (int_small (n - 1)) by lia.
  destruct (val >? edge_at h n)%f64; [apply credit_bin; lia|].
  destruct (Fill_scan (Z.to_nat (n - 1)) hc val w 0) as [[h'|]|p];
    cbn [rbind]; try reflexivity.
  rewrite (edge_index (n - 1)) by lia. cbn [rbind].
  destruct (edge_at h (n - 1) <=? val)%f64; cbn [andb]; [|reflexivity].
  destruct (val <=? edge_at h n)%f64; [apply credit_bin; lia | reflexivity].
Qed.

End FillFacts.

Section FillClaims.

Import math hist.
Local Open Scope Z_scope.

(** What [Fill] with no or one weight returns: the counters are advanced,
    and one content is credited or none is. *)
Lemma Fill_shape (h : H1D) (val : float64) (weight : list float64) :
  well_formed h -> 1 <= nBins h ->
  ((1 < length weight)%nat -> Fill h val weight = Panics OneWeight) /\
  ((length weight <= 1)%nat ->
   exists content,
     Fill h val weight
     = Ok (with_content (counted h (the_weight weight)) content) /\
     (content = binContent h \/
      exists j, 0 <= j <= nBins h + 1 /\
                content = credited (binContent h) j (the_weight weight)) /\
     well_formed (with_content (counted h (the_weight weight)) content)).
Proof.
  intros Hwf Hn. split.
  - intros Hlen. unfold Fill.
    replace (1 <? length weight)%nat with true
      by (symmetry; apply Nat.ltb_lt; exact Hlen).
    reflexivity.
  - intros Hlen.
    assert (Hshape : exists content,
      Fill h val weight
      = Ok (with_content (counted h (the_weight weight)) content) /\
      (content = binContent h \/
       exists j, 0 <= j <= nBins h + 1 /\
                 content = credited (binContent h) j (the_weight weight))).
    { rewrite (Fill_unfold h val weight Hwf Hn Hlen).
      destruct (val <? edge_at h 0)%f64;
        [eexists; split; [reflexivity|]; right; exists 0; split; [lia|reflexivity]|].
      destruct (val >? edge_at h (nBins h))%f64;
        [eexists; split; [reflexivity|]; right; exists (nBins h + 1);
         split; [lia|reflexivity]|].
      destruct (scan_result h val weight Hwf Hlen (Z.to_nat (nBins h - 1)) 0)
        as [(j & Hj & _ & _ & ->) | (-> & _)]; try lia; cbn [rbind].
      - eexists; split; [reflexivity|]. right. exists j. split; [lia|reflexivity].
      - destruct ((edge_at h (nBins h - 1) <=? val)%f64
                  && (val <=? edge_at h (nBins h))%f64).
        + eexists; split; [reflexivity|]. right. exists (nBins h).
          split; [lia|reflexivity].
        + exists (binContent h). split; [|left; reflexivity].
          destruct h; reflexivity. }
    destruct Hshape as (content & Hrun & Hcontent).
    exists content. split; [exact Hrun|]. split; [exact Hcontent|].
    destruct Hwf as (H0 & Hmax & Hb & Hc & Hv).
    unfold well_formed. cbn [with_content counted nBins bins binContent binVariance].
    repeat split; try assumption.
    destruct Hcontent as [->|(j & _ & ->)]; [exact Hc|].
    rewrite length_credited. exact Hc.
Qed.

(** X9. On a well-formed histogram with at least one bin, [Fill] with no
    weight ([w] is 1.0 then) or with the one weight [w] never panics.  In
    the histogram it leaves, [nEntries] is one more (and the least [int]
    behind the largest one), [sumOfWeights] is [sumOfWeights + w], the
    number of bins, the edges and the variances are what they were, and
    either the content of one bin out of 0 to [nBins + 1] has [w] added to
    it or no content has changed at all; the histogram stays well-formed.
    With more than one weight it panics before it changes anything. *)
Theorem Fill_changes_one_bin_at_most (h : H1D) (val : float64)
  (weight : list float64) :
  well_formed h -> 1 <= nBins h ->
  ((1 < length weight)%nat -> Fill h val weight = Panics OneWeight) /\
  (forall w : float64,
   (weight = [] /\ w = of_Z 1) \/ weight = [w] ->
   exists h',
     Fill h val weight = Ok h' /\
     (GoInt.MinInt <= nEntries h < GoInt.MaxInt ->
      nEntries h' = nEntries h + 1) /\
     (nEntries h = GoInt.MaxInt -> nEntries h' = GoInt.MinInt) /\
     sumOfWeights h' = (sumOfWeights h + w)%f64 /\
     nBins h' = nBins h /\ bins h' = bins h /\
     binVariance h' = binVariance h /\
     (binContent h' = binContent h \/
      exists j, 0 <= j <= nBins h + 1 /\
                binContent h' = credited (binContent h) j w) /\
     well_formed h').
Proof.
  intros Hwf Hn. destruct (Fill_shape h val weight Hwf Hn) as [Hmany Hfew].
  split; [exact Hmany|].
  intros w Hw.
  assert (Hlen : (length weight <= 1)%nat)
    by (destruct Hw as [[-> _] | ->]; cbn; lia).
  assert (Hthe : the_weight weight = w)
    by (destruct Hw as [[-> ->] | ->]; reflexivity).
  destruct (Hfew Hlen) as (content & Hrun & Hcontent & Hwf').
  rewrite Hthe in *.
  exists (with_content (counted h w) content).
  split; [exact Hrun|].
  cbn [with_content counted nEntries sumOfWeights nBins bins binVariance
       binContent].
  split; [|split].
  - intros Hr. apply wrap_small. lia.
  - intros ->. reflexivity.
  - split; [reflexivity|]. split; [reflexivity|]. split; [reflexivity|].
    split; [reflexivity|]. split; [exact Hcontent | exact Hwf'].
Qed.

End FillClaims.

Section FillBins.

Import math hist HistTests.
Local Open Scope Z_scope.

Lemma four_bins_well_formed : well_formed four_bins.
Proof.
  unfold well_formed, GoInt.MaxInt. cbn. repeat split; lia.
Qed.

(** Without NaN, the edges up to [t] that the loop has passed are not
    above [val]. *)
Lemma edges_passed (h : H1D) (val : float64) :
  IsNaN val = false ->
  (forall t, 0 <= t <= nBins h -> IsNaN (edge_at h t) = false) ->
  (val <? edge_at h 0)%f64 = false ->
  (forall t, 0 <= t < nBins h - 1 ->
     (edge_at h t <=? val)%f64 && (val <? edge_at h (t + 1))%f64 = false) ->
  forall k : nat, Z.of_nat k <= nBins h - 1 ->
    (edge_at h (Z.of_nat k) <=? val)%f64 = true.
Proof.
  intros Hval Hedges H0 Hnone. rewrite IsNaN_is_nan in Hval.
  induction k as [|k IH]; intros Hk.
  - apply not_gtb_leb; [rewrite <- IsNaN_is_nan; apply Hedges; lia | exact Hval |].
    exact H0.
  - rewrite Nat2Z.inj_succ in *. unfold Z.succ in *.
    specialize (IH ltac:(lia)).
    specialize (Hnone (Z.of_nat k) ltac:(lia)). rewrite IH in Hnone.
    cbn [andb] in Hnone.
    apply not_gtb_leb; [rewrite <- IsNaN_is_nan; apply Hedges; lia | exact Hval |].
    exact Hnone.
Qed.

(** X10. On a well-formed histogram with at least one bin and no NaN among
    its edges, [Fill] with a value that is not NaN counts the entry in
    exactly one bin: the underflow bin 0 when [val < bins[0]], the overflow
    bin [nBins + 1] when [val > bins[nBins]], and otherwise a regular bin
    [j] with [bins[j-1] <= val] and [val < bins[j]], or [val <= bins[j]]
    for the last bin.  No entry is lost, whether the edges are sorted or
    not. *)
Theorem Fill_counts_once (h : H1D) (val : float64) (weight : list float64) :
  well_formed h -> 1 <= nBins h -> (length weight <= 1)%nat ->
  IsNaN val = false ->
  (forall t, 0 <= t <= nBins h -> IsNaN (edge_at h t) = false) ->
  exists j,
    Fill h val weight
    = Ok (with_content (counted h (the_weight weight))
            (credited (binContent h) j (the_weight weight))) /\
    ((j = 0 /\ (val <? edge_at h 0)%f64 = true) \/
     (j = nBins h + 1 /\ (val <? edge_at h 0)%f64 = false /\
      (val >? edge_at h (nBins h))%f64 = true) \/
     (1 <= j <= nBins h /\
      (edge_at h (j - 1) <=? val)%f64 = true /\
      ((val <? edge_at h j)%f64 = true \/
       (j = nBins h /\ (val <=? edge_at h j)%f64 = true)))).
Proof.
  intros Hwf Hn Hlen Hval Hedges.
  rewrite (Fill_unfold h val weight Hwf Hn Hlen).
  destruct (val <? edge_at h 0)%f64 eqn:H0;
    [exists 0; split; [reflexivity|]; left; auto|].
  destruct (val >? edge_at h (nBins h))%f64 eqn:Hover;
    [exists (nBins h + 1); split; [reflexivity|]; right; left; auto|].
  destruct (scan_result h val weight Hwf Hlen (Z.to_nat (nBins h - 1)) 0)
    as [(j & Hj & Hlo & Hhi & ->) | (-> & Hnone)]; try lia; cbn [rbind].
  - exists j. split; [reflexivity|]. right; right.
    split; [lia|]. split; [exact Hlo|]. left. exact Hhi.
  - pose proof (edges_passed h val Hval Hedges H0 Hnone
                  (Z.to_nat (nBins h - 1))) as Hlast.
    rewrite Z2Nat.id in Hlast by lia. specialize (Hlast ltac:(lia)).
    rewrite Hlast.
    assert (Hle : (val <=? edge_at h (nBins h))%f64 = true).
    { apply not_gtb_leb; [rewrite <- IsNaN_is_nan; exact Hval | | exact Hover].
      rewrite <- IsNaN_is_nan. apply Hedges. lia. }
    rewrite Hle. cbn [andb].
    exists (nBins h). split; [reflexivity|]. right; right.
    split; [lia|]. split; [exact Hlast|]. right. auto.
Qed.

Lemma Fill_counts_once_witness :
  exists j,
    Fill four_bins (of_Z 4) [of_Z 3]
    = Ok (with_content (counted four_bins (of_Z 3))
            (credited (binContent four_bins) j (of_Z 3))).
Proof.
  destruct (Fill_counts_once four_bins (of_Z 4) [of_Z 3]
              four_bins_well_formed) as (j & Hrun & _).
  - cbn. lia.
  - cbn. lia.
  - reflexivity.
  - intros t Ht.
    assert (Hcases : t = 0 \/ t = 1 \/ t = 2 \/ t = 3 \/ t = 4)
      by (cbn in Ht; lia).
    destruct Hcases as [-> | [-> | [-> | [-> | ->]]]]; reflexivity.
  - exists j. exact Hrun.
Defined.

(** With NaN for the value, [Fill] leaves the histogram in which the
    counters have been advanced. *)
Lemma Fill_NaN_counted (h : H1D) (weight : list float64) :
  well_formed h -> 1 <= nBins h -> (length weight <= 1)%nat ->
  Fill h NaN weight = Ok (counted h (the_weight weight)).
Proof.
  intros Hwf Hn Hlen.
  rewrite (Fill_unfold h NaN weight Hwf Hn Hlen).
  rewrite NaN_ltb, NaN_gtb.
  destruct (scan_result h NaN weight Hwf Hlen (Z.to_nat (nBins h - 1)) 0)
    as [(j & _ & Hlo & _) | (-> & _)]; try lia; cbn [rbind].
  - exfalso. unfold leb, SFleb in Hlo.
    destruct (edge_at h (j - 1)); discriminate Hlo.
  - replace (edge_at h (nBins h - 1) <=? NaN)%f64 with false
      by (unfold leb, SFleb; destruct (edge_at h (nBins h - 1)); reflexivity).
    reflexivity.
Qed.

Lemma three_entries_well_formed : well_formed three_entries.
Proof.
  unfold well_formed, GoInt.MaxInt. cbn. repeat split; lia.
Qed.

(** X11. A NaN value is counted in no bin: on a well-formed histogram
    with at least one bin, [Fill] with NaN and no weight ([w] is 1.0) or
    the one weight [w] leaves a histogram in which [nEntries] is one more
    and [sumOfWeights] is [sumOfWeights + w], while every content is what
    it was, the underflow and overflow bins included, as are the number of
    bins, the edges and the variances. *)
Theorem Fill_NaN_is_lost (h : H1D) (val : float64) (weight : list float64)
  (w : float64) :
  well_formed h -> 1 <= nBins h ->
  (weight = [] /\ w = of_Z 1) \/ weight = [w] ->
  IsNaN val = true ->
  exists h',
    Fill h val weight = Ok h' /\
    binContent h' = binContent h /\
    sumOfWeights h' = (sumOfWeights h + w)%f64 /\
    (GoInt.MinInt <= nEntries h < GoInt.MaxInt ->
     nEntries h' = nEntries h + 1) /\
    nBins h' = nBins h /\ bins h' = bins h /\
    binVariance h' = binVariance h.
Proof.
  intros Hwf Hn Hw Hval. apply IsNaN_true in Hval. subst val.
  assert (Hlen : (length weight <= 1)%nat)
    by (destruct Hw as [[-> _] | ->]; cbn; lia).
  assert (Hthe : the_weight weight = w)
    by (destruct Hw as [[-> ->] | ->]; reflexivity).
  exists (counted h w). rewrite <- Hthe at 1.
  split; [exact (Fill_NaN_counted h weight Hwf Hn Hlen)|].
  cbn [counted nEntries sumOfWeights nBins bins binVariance binContent].
  split; [reflexivity|]. split; [reflexivity|].
  split; [intros Hr; apply wrap_small; lia|].
  repeat split.
Qed.

Lemma Fill_NaN_is_lost_witness :
  exists h',
    Fill three_entries NaN [] = Ok h' /\
    binContent h' = binContent three_entries /\
    sumOfWeights h' = (of_Z 7 + of_Z 1)%f64 /\
    nEntries h' = 4.
Proof.
  destruct (Fill_NaN_is_lost three_entries NaN [] (of_Z 1)
              three_entries_well_formed)
    as (h' & Hrun & Hc & Hs & Hk & _).
  - cbn. lia.
  - left. split; reflexivity.
  - reflexivity.
  - exists h'. split; [exact Hrun|]. split; [exact Hc|].
    split; [exact Hs|]. apply Hk. unfold GoInt.MinInt, GoInt.MaxInt. cbn. lia.
Defined.

Lemma Fill_changes_one_bin_at_most_witness :
  Fill three_entries (of_Z 1) [of_Z 2; of_Z 3] = Panics OneWeight /\
  exists h',
    Fill three_entries (of_Z 1) [of_Z 2] = Ok h' /\
    nEntries h' = 4 /\
    sumOfWeights h' = (of_Z 7 + of_Z 2)%f64 /\
    bins h' = bins three_entries /\
    binVariance h' = binVariance three_entries.
Proof.
  assert (Hn : 1 <= nBins three_entries) by (cbn; lia).
  destruct (Fill_changes_one_bin_at_most three_entries (of_Z 1)
              [of_Z 2; of_Z 3] three_entries_well_formed Hn) as [Hmany _].
  destruct (Fill_changes_one_bin_at_most three_entries (of_Z 1)
              [of_Z 2] three_entries_well_formed Hn) as [_ Hone].
  split; [apply Hmany; cbn; lia|].
  destruct (Hone (of_Z 2) (or_intror eq_refl))
    as (h' & Hrun & Hk & _ & Hs & _ & Hb & Hv & _).
  exists h'. split; [exact Hrun|].
  split; [apply Hk; unfold GoInt.MinInt, GoInt.MaxInt; cbn; lia|].
  split; [exact Hs|]. split; assumption.
Defined.

End FillBins.

(** ** Setting and reading bins *)

Section Bins.

Import math hist HistTests.
Local Open Scope Z_scope.

Lemma index_set_nth_same (s : list float64) (i : Z) (a : float64) :
  0 <= i < Z.of_nat (length s) ->
  index (set_nth (Z.to_nat i) a s) i = Ok a.
Proof.
  intros H. rewrite index_in by (rewrite length_set_nth; exact H).
  rewrite nth_set_nth_same by lia. reflexivity.
Qed.

Lemma index_set_nth_other (s : list float64) (i j : Z) (a : float64) :
  0 <= i -> j <> i ->
  index (set_nth (Z.to_nat i) a s) j = index s j.
Proof.
  intros Hi Hne. unfold index. rewrite length_set_nth.
  destruct ((0 <=? j) && (j <? Z.of_nat (length s))) eqn:Hr; [|reflexivity].
  apply andb_true_iff in Hr. destruct Hr as [H0 _]. apply Z.leb_le in H0.
  rewrite nth_set_nth_other by lia. reflexivity.
Qed.

(** X12. [SetBinContent] on a bin of the slice, followed by [BinContent] on
    this bin, gives the value that was set; the contents of the other
    bins, the variances, the edges and [nEntries] stay as they are, and
    [sumOfWeights] grows by the new content minus the old one.  On a bin
    outside of the slice [SetBinContent] panics. *)
Theorem SetBinContent_then_BinContent (h : H1D) (bin : Z) (sum : float64) :
  (0 <= bin < Z.of_nat (length (binContent h)) ->
   exists h',
     SetBinContent h bin sum = Ok h' /\
     BinContent h' bin = Ok sum /\
     (forall j, j <> bin -> BinContent h' j = BinContent h j) /\
     sumOfWeights h' = (sumOfWeights h + (sum - content_at h bin))%f64 /\
     nEntries h' = nEntries h /\ nBins h' = nBins h /\
     bins h' = bins h /\ binVariance h' = binVariance h /\
     length (binContent h') = length (binContent h)) /\
  (bin < 0 \/ Z.of_nat (length (binContent h)) <= bin ->
   SetBinContent h bin sum = Panics IndexOutOfRange).
Proof.
  split; intros Hbin; unfold SetBinContent.
  - rewrite (index_in _ _ Hbin). cbn [rbind].
    rewrite (assign_in _ _ _ Hbin). cbn [rbind].
    eexists. split; [reflexivity|].
    unfold BinContent. cbn [binContent sumOfWeights nEntries nBins bins binVariance].
    split; [apply index_set_nth_same; exact Hbin|].
    split; [intros j Hj; apply index_set_nth_other; lia|].
    repeat split. apply length_set_nth.
  - rewrite (index_out _ _ Hbin). reflexivity.
Qed.

(** The loop that writes [f i] to the places [i] of a slice. *)
Lemma for_loop_assign (f : Z -> float64) (k : nat) :
  forall (i : Z) (s : list float64),
    0 <= i -> i + Z.of_nat k = Z.of_nat (length s) ->
    exists s',
      for_loop k i (fun i s => assign s i (f i)) s = Ok s' /\
      length s' = length s /\
      forall t, 0 <= t < Z.of_nat (length s) ->
        nth (Z.to_nat t) s' (S754_zero false)
        = if t <? i then nth (Z.to_nat t) s (S754_zero false) else f t.
Proof.
  induction k as [|k IH]; intros i s Hi Hk.
  - exists s. split; [reflexivity|]. split; [reflexivity|].
    intros t Ht. destruct (Z.ltb_spec t i); [reflexivity | lia].
  - cbn [for_loop]. rewrite assign_in by lia. cbn [rbind].
    destruct (IH (i + 1) (set_nth (Z.to_nat i) (f i) s)) as (s' & Hrun & Hlen & Hnth);
      [lia | rewrite length_set_nth; lia |].
    rewrite length_set_nth in Hlen, Hnth.
    exists s'. split; [exact Hrun|]. split; [exact Hlen|].
    intros t Ht. rewrite (Hnth t Ht).
    destruct (Z.ltb_spec t (i + 1)); destruct (Z.ltb_spec t i); try lia;
      try reflexivity.
    + rewrite nth_set_nth_other by lia. reflexivity.
    + replace t with i by lia. apply nth_set_nth_same. lia.
Qed.

(** X13. [NewH1D] with [n >= 0] bins returns a well-formed, empty
    histogram: no entries, the sum +0, [n + 2] contents and variances that
    are all +0, and the [n + 1] edges [xMin + i * step] for
    [step = (xMax - xMin) / n].  With [n < -1] it panics in [make]. *)
Theorem NewH1D_is_empty (n : Z) (xMin xMax : float64) :
  (0 <= n -> n + 2 <= GoInt.MaxInt ->
   exists h,
     NewH1D n xMin xMax = Ok h /\ well_formed h /\
     nBins h = n /\ nEntries h = 0 /\ sumOfWeights h = S754_zero false /\
     binContent h = repeat (S754_zero false) (Z.to_nat (n + 2)) /\
     binVariance h = repeat (S754_zero false) (Z.to_nat (n + 2)) /\
     forall i, 0 <= i <= n ->
       edge_at h i = (xMin + of_Z i * ((xMax - xMin) / of_Z n))%f64) /\
  (GoInt.MinInt <= n < -1 -> NewH1D n xMin xMax = Panics MakeSliceLen).
Proof.
  split.
  - intros Hn Hmax. unfold NewH1D.
    rewrite !wrap_small by (unfold GoInt.MinInt, GoInt.MaxInt in *; lia).
    unfold make.
    replace (n + 2 <? 0) with false by (symmetry; apply Z.ltb_ge; lia).
    replace (n + 1 <? 0) with false by (symmetry; apply Z.ltb_ge; lia).
    cbn [rbind].
    destruct (for_loop_assign
                (fun i => (xMin + of_Z i * ((xMax - xMin) / of_Z n))%f64)
                (Z.to_nat (n + 1)) 0
                (repeat (S754_zero false) (Z.to_nat (n + 1))))
      as (s' & Hrun & Hlen & Hnth); [lia | rewrite repeat_length; lia |].
    rewrite Hrun. cbn [rbind]. rewrite repeat_length in Hlen, Hnth.
    eexists. split; [reflexivity|].
    unfold well_formed, edge_at.
    cbn [nBins nEntries sumOfWeights binContent binVariance bins].
    rewrite Hlen, !repeat_length.
    repeat split; try lia.
    intros i Hi. rewrite Hnth by lia.
    destruct (Z.ltb_spec i 0); [lia | reflexivity].
  - intros Hn. unfold NewH1D.
    rewrite !wrap_small by (unfold GoInt.MinInt, GoInt.MaxInt in *; lia).
    unfold make.
    destruct (Z.ltb_spec (n + 2) 0); [reflexivity|]. cbn [rbind].
    replace (n + 1 <? 0) with true by (symmetry; apply Z.ltb_lt; lia).
    reflexivity.
Qed.

Example NewH1D_four_bins :
  NewH1D 4 (of_Z 0) (of_Z 4) = Ok four_bins.
Proof. vm_compute. reflexivity. Qed.

End Bins.

(** ** The maximum bin and the mode *)

Section Maximum.

Import math hist HistTests.
Local Open Scope Z_scope.

Lemma SFcompare_lt_le_trans (a b c : float64) :
  SFcompare a b = Some Lt ->
  SFcompare b c = Some Lt \/ SFcompare b c = Some Eq ->
  SFcompare a c = Some Lt.
Proof.
  destruct a as [sa|sa| |sa ma ea], b as [sb|sb| |sb mb eb],
           c as [sc|sc| |sc mc ec];
    cbn [SFcompare]; rewrite ?compare_cont_Z;
    try (intros H; discriminate H);
    try (intros _ [H|H]; discriminate H);
    try (destruct sa; destruct sb; destruct sc;
         intros H [H'|H']; try discriminate H; try discriminate H';
         reflexivity).
  all: destruct sa, sb, sc; intros H [H'|H'];
    try discriminate H; try discriminate H'; try reflexivity.
  all: revert H H';
    destruct (Z.compare_spec ea eb), (Z.compare_spec eb ec),
             (Z.compare_spec ea ec);
    try discriminate; try (intros; exfalso; lia); try reflexivity;
    destruct (Z.compare_spec (Zpos ma) (Zpos mb)),
             (Z.compare_spec (Zpos mb) (Zpos mc)),
             (Z.compare_spec (Zpos ma) (Zpos mc));
    cbn [CompOpp]; try discriminate; try reflexivity;
    intros; exfalso; lia.
Qed.

Lemma gtb_trans (a b c : float64) :
  (a >? b)%f64 = true -> (b >? c)%f64 = true -> (a >? c)%f64 = true.
Proof.
  unfold gtb, SFltb. intros Hab Hbc.
  destruct (SFcompare c b) as [[| |]|] eqn:E1; try discriminate.
  destruct (SFcompare b a) as [[| |]|] eqn:E2; try discriminate.
  rewrite (SFcompare_le_lt_trans c b a); auto.
Qed.

Lemma gtb_leb_trans (a b c : float64) :
  (a >? b)%f64 = true -> (a <=? c)%f64 = true -> (c >? b)%f64 = true.
Proof.
  unfold gtb, leb, SFltb, SFleb. intros Hab Hac.
  destruct (SFcompare b a) as [[| |]|] eqn:E1; try discriminate.
  rewrite (SFcompare_lt_le_trans b a c); auto.
  destruct (SFcompare a c) as [[| |]|]; try discriminate; auto.
Qed.

Variable h : H1D.
Hypothesis wf : well_formed h.

(** What the loop of [MaximumBin] knows about [(max, maxBin)] behind the
    bins 1 to [i]. *)
Let knows (i : Z) (s : float64 * Z) : Prop :=
  0 <= snd s <= i /\
  (snd s = 0 -> fst s = least) /\
  (1 <= snd s ->
   fst s = content_at h (snd s) /\
   (fst s >? least)%f64 = true /\
   forall j, 1 <= j < snd s -> (fst s <=? content_at h j)%f64 = false) /\
  forall j, 1 <= j <= i -> (content_at h j >? fst s)%f64 = false.

Lemma MaximumBin_loop (k : nat) : forall (i : Z) (s : float64 * Z),
  0 <= i -> i + Z.of_nat k = nBins h -> knows i s ->
  exists s', for_loop k i (MaximumBin_body h) s = Ok s' /\ knows (nBins h) s'.
Proof.
  destruct wf as (_ & Hmax & _ & Hc & _).
  induction k as [|k IH]; intros i [M mb] Hi Hk Hinv.
  - exists (M, mb). split; [reflexivity|].
    replace (nBins h) with i by lia. exact Hinv.
  - cbn [for_loop]. unfold MaximumBin_body at 1.
    rewrite wrap_small by (unfold GoInt.MinInt, GoInt.MaxInt in *; lia).
    rewrite index_in by lia. cbn [rbind fst].
    fold (content_at h (i + 1)).
    unfold knows in Hinv.
    destruct Hinv as (Hmb & Hzero & Hpos & Hall). cbn [fst snd] in *.
    destruct (content_at h (i + 1) >? M)%f64 eqn:Hgt; cbn [rbind].
    + apply IH; [lia | lia |]. unfold knows. cbn [fst snd].
      split; [lia|]. split; [lia|]. split; [intros _; split; [reflexivity|]; split|].
      * destruct (Z.eq_dec mb 0) as [H0|H0].
        -- rewrite <- (Hzero H0). exact Hgt.
        -- destruct Hpos as (_ & Hl & _); [lia|].
           exact (gtb_trans _ _ _ Hgt Hl).
      * intros j Hj.
        destruct (content_at h (i + 1) <=? content_at h j)%f64 eqn:Hle;
          [|reflexivity].
        rewrite <- (Hall j ltac:(lia)). symmetry.
        exact (gtb_leb_trans _ _ _ Hgt Hle).
      * intros j Hj.
        destruct (Z.eq_dec j (i + 1)) as [->|Hne].
        -- unfold gtb, SFltb.
           destruct (content_at h (i + 1)) as [s|s| |s m e]; try reflexivity;
             [destruct s; reflexivity|].
           rewrite SFcompare_refl by reflexivity. reflexivity.
        -- destruct (content_at h j >? content_at h (i + 1))%f64 eqn:Hj';
             [|reflexivity].
           rewrite <- (Hall j ltac:(lia)). symmetry.
           exact (gtb_trans _ _ _ Hj' Hgt).
    + apply IH; [lia | lia |]. unfold knows. cbn [fst snd].
      split; [lia|]. split; [exact Hzero|]. split; [exact Hpos|].
      intros j Hj. destruct (Z.eq_dec j (i + 1)) as [->|Hne];
        [exact Hgt | apply Hall; lia].
Qed.

Lemma MaximumBin_knows :
  exists M m, MaximumBin h = Ok m /\ knows (nBins h) (M, m).
Proof.
  destruct wf as (H0 & _ & Hb & _).
  destruct (MaximumBin_loop (Z.to_nat (nBins h)) 0 (least, 0))
    as ([M m] & Hrun & Hinv); [lia | lia | |].
  - unfold knows. cbn [fst snd]. repeat split; intros; lia.
  - exists M, m. split; [|exact Hinv].
    unfold MaximumBin. rewrite Hb.
    replace (nBins h + 1 - 1) with (nBins h) by lia.
    rewrite Hrun. reflexivity.
Qed.

End Maximum.

Section MaximumClaims.

Import math hist HistTests.
Local Open Scope Z_scope.

(** X14. On a well-formed histogram [MaximumBin] does not panic and
    returns a bin [m] between 0 and [nBins]: 0 when no regular bin has a
    content above -1e99, and otherwise the first regular bin that holds the
    largest content: its content is above -1e99, no regular bin has a
    larger one, and no regular bin before it reaches it.  The underflow
    and overflow bins are not looked at. *)
Theorem MaximumBin_is_first_maximum (h : H1D) :
  well_formed h ->
  exists m,
    MaximumBin h = Ok m /\ 0 <= m <= nBins h /\
    (m = 0 ->
     forall j, 1 <= j <= nBins h -> (content_at h j >? least)%f64 = false) /\
    (1 <= m ->
     (content_at h m >? least)%f64 = true /\
     (forall j, 1 <= j <= nBins h ->
        (content_at h j >? content_at h m)%f64 = false) /\
     (forall j, 1 <= j < m ->
        (content_at h m <=? content_at h j)%f64 = false)).
Proof.
  intros Hwf.
  destruct (MaximumBin_knows h Hwf) as (M & m & Hrun & Hinv).
  cbv beta zeta in Hinv. cbn [fst snd] in Hinv.
  destruct Hinv as (Hm & Hzero & Hpos & Hall).
  exists m. split; [exact Hrun|]. split; [exact Hm|]. split.
  - intros H0 j Hj. rewrite <- (Hzero H0). apply Hall. exact Hj.
  - intros H1. destruct (Hpos H1) as (HM & Hl & Hfirst).
    rewrite <- HM. repeat split; assumption.
Qed.

Lemma MaximumBin_is_first_maximum_witness :
  MaximumBin four_bins = Ok 1.
Proof.
  destruct (MaximumBin_is_first_maximum four_bins four_bins_well_formed)
    as (m & Hrun & _).
  rewrite Hrun. vm_compute in Hrun. symmetry. exact Hrun.
Defined.

(** X15. On a well-formed histogram [Mode] panics, by an index -1 into the
    edges, exactly when no regular bin has a content above -1e99: on a
    histogram without bins, and when all the contents are NaN.  Otherwise
    it returns the centre of a regular bin. *)
Theorem Mode_panics_without_maximum (h : H1D) :
  well_formed h ->
  (Mode h = Panics IndexOutOfRange <->
   forall j, 1 <= j <= nBins h -> (content_at h j >? least)%f64 = false) /\
  (forall p, Mode h = Panics p -> p = IndexOutOfRange) /\
  (forall c, Mode h = Ok c ->
     exists m, 1 <= m <= nBins h /\ MaximumBin h = Ok m /\
               c = ((edge_at h (m - 1) + edge_at h m) / c2)%f64).
Proof.
  intros Hwf.
  destruct (MaximumBin_knows h Hwf) as (M & m & Hrun & Hinv).
  cbv beta zeta in Hinv. cbn [fst snd] in Hinv.
  destruct Hinv as (Hm & Hzero & Hpos & Hall).
  destruct Hwf as (H0 & Hmax & Hb & _).
  unfold Mode. rewrite Hrun. cbn [rbind]. unfold BinCenter.
  destruct (Z.eq_dec m 0) as [->|Hne].
  - rewrite index_out by (change (GoInt.wrap (0 - 1)) with (-1); lia).
    cbn [rbind].
    split; [split; [intros _ j Hj|reflexivity]|split].
    + rewrite <- (Hzero eq_refl). apply Hall. exact Hj.
    + intros p [= <-]. reflexivity.
    + intros c [=].
  - rewrite wrap_small by (unfold GoInt.MinInt, GoInt.MaxInt in *; lia).
    rewrite !index_in by lia. cbn [rbind].
    split; [split; [intros [=]|]|split].
    + intros Hnone. exfalso.
      destruct (Hpos ltac:(lia)) as (HM & Hl & _).
      rewrite HM, (Hnone m ltac:(lia)) in Hl. discriminate Hl.
    + intros p [=].
    + intros c [= <-]. exists m. repeat split; lia.
Qed.

Lemma Mode_panics_without_maximum_witness :
  Mode (with_content four_bins (repeat NaN 6)) = Panics IndexOutOfRange.
Proof.
  assert (Hwf : well_formed (with_content four_bins (repeat NaN 6))).
  { unfold well_formed, GoInt.MaxInt. cbn. repeat split; lia. }
  apply (proj1 (Mode_panics_without_maximum _ Hwf)).
  intros j Hj.
  assert (Hcases : j = 1 \/ j = 2 \/ j = 3 \/ j = 4) by (cbn in Hj; lia).
  destruct Hcases as [-> | [-> | [-> | ->]]]; reflexivity.
Defined.

End MaximumClaims.

(** ** Scaling, and a histogram without bins *)

Section Scaling.

Import math hist HistTests.
Local Open Scope Z_scope.

Variable scale : float64.

Let times (a : float64) : float64 := (a * scale)%f64.
Let z0 : float64 := S754_zero false.

Lemma Scale_loop (k : nat) : forall (i : Z) (c v : list float64),
  0 <= i -> i + Z.of_nat k = Z.of_nat (length c) -> length v = length c ->
  exists c' v',
    for_loop k i (Scale_body scale) (c, v) = Ok (c', v') /\
    length c' = length c /\ length v' = length c /\
    forall t, 0 <= t < Z.of_nat (length c) ->
      nth (Z.to_nat t) c' z0
      = (if t <? i then nth (Z.to_nat t) c z0 else times (nth (Z.to_nat t) c z0)) /\
      nth (Z.to_nat t) v' z0
      = (if t <? i then nth (Z.to_nat t) v z0 else times (nth (Z.to_nat t) v z0)).
Proof.
  induction k as [|k IH]; intros i c v Hi Hk Hlen.
  - exists c, v. split; [reflexivity|]. split; [reflexivity|].
    split; [exact Hlen|].
    intros t Ht. destruct (Z.ltb_spec t i); [split; reflexivity | lia].
  - cbn [for_loop]. unfold Scale_body at 1. cbn [fst snd].
    rewrite index_in by lia. cbn [rbind].
    rewrite assign_in by lia. cbn [rbind].
    rewrite index_in by lia. cbn [rbind].
    rewrite assign_in by lia. cbn [rbind].
    destruct (IH (i + 1)
                (set_nth (Z.to_nat i) (nth (Z.to_nat i) c z0 * scale)%f64 c)
                (set_nth (Z.to_nat i) (nth (Z.to_nat i) v z0 * scale)%f64 v))
      as (c' & v' & Hrun & Hc & Hv & Hnth);
      [lia | rewrite length_set_nth; lia | rewrite !length_set_nth; exact Hlen |].
    rewrite length_set_nth in Hc, Hv, Hnth.
    exists c', v'. split; [exact Hrun|]. split; [exact Hc|]. split; [exact Hv|].
    intros t Ht. destruct (Hnth t Ht) as [-> ->].
    destruct (Z.ltb_spec t (i + 1)); destruct (Z.ltb_spec t i); try lia.
    + rewrite !nth_set_nth_other by lia. split; reflexivity.
    + replace t with i by lia.
      rewrite !nth_set_nth_same by lia. split; reflexivity.
    + rewrite !nth_set_nth_other by lia. split; reflexivity.
Qed.

Lemma nth_all_times (s s' : list float64) :
  length s' = length s ->
  (forall t, 0 <= t < Z.of_nat (length s) ->
     nth (Z.to_nat t) s' z0 = times (nth (Z.to_nat t) s z0)) ->
  s' = map times s.
Proof.
  intros Hlen Hnth.
  apply (nth_ext _ _ z0 z0); [rewrite length_map; exact Hlen|].
  intros i Hi. rewrite Hlen in Hi.
  rewrite (nth_indep (map times s) z0 (times z0)) by (rewrite length_map; exact Hi).
  rewrite map_nth. rewrite <- (Nat2Z.id i). apply Hnth. lia.
Qed.

End Scaling.

Section ScalingClaims.

Import math hist HistTests.
Local Open Scope Z_scope.

(** X16. On a well-formed histogram [Scale] does not panic: it multiplies
    [sumOfWeights], the contents of all [nBins + 2] bins and all their
    variances by the factor (the variances by the factor itself, not by its
    square) and leaves [nEntries], [nBins] and the edges as they are. *)
Theorem Scale_multiplies_all (h : H1D) (scale : float64) :
  well_formed h ->
  Scale h scale
  = Ok {| nEntries := nEntries h; nBins := nBins h;
          sumOfWeights := (sumOfWeights h * scale)%f64;
          binContent := map (fun c => (c * scale)%f64) (binContent h);
          binVariance := map (fun v => (v * scale)%f64) (binVariance h);
          bins := bins h |}.
Proof.
  intros (H0 & Hmax & _ & Hc & Hv).
  unfold Scale.
  rewrite wrap_small by (unfold GoInt.MinInt, GoInt.MaxInt in *; lia).
  destruct (Scale_loop scale (Z.to_nat (nBins h + 2)) 0
              (binContent h) (binVariance h))
    as (c' & v' & Hrun & Hlc & Hlv & Hnth); [lia | lia | lia |].
  rewrite Hrun. cbn [rbind fst snd].
  rewrite (nth_all_times scale (binContent h) c' Hlc),
          (nth_all_times scale (binVariance h) v'); try reflexivity.
  - lia.
  - intros t Ht. assert (Ht' : 0 <= t < Z.of_nat (length (binContent h))) by lia.
    destruct (Hnth t Ht') as [_ ->].
    destruct (Z.ltb_spec t 0); [lia | reflexivity].
  - intros t Ht. destruct (Hnth t Ht) as [-> _].
    destruct (Z.ltb_spec t 0); [lia | reflexivity].
Qed.

Lemma Scale_multiplies_all_witness :
  Scale three_entries (of_Z 3)
  = Ok {| nEntries := 3; nBins := 4; sumOfWeights := of_Z 21;
          binContent := [S754_zero false; of_Z 3; of_Z 6; of_Z 12;
                         S754_zero false; S754_zero false];
          binVariance := [S754_zero false; of_Z 3; of_Z 12; of_Z 48;
                          S754_zero false; S754_zero false];
          bins := [S754_zero false; of_Z 1; of_Z 2; of_Z 3; of_Z 4] |}.
Proof.
  rewrite (Scale_multiplies_all three_entries (of_Z 3)
             three_entries_well_formed).
  reflexivity.
Defined.

(** X17. [NewH1D(0, xMin, xMax)] returns a histogram without complaint,
    whatever the limits are, but its only edge is NaN (the step is a
    division by zero), and it is of no use: [MaximumBin] returns 0, and
    [Mode] and every [Fill] with no or one weight panic with an index out
    of range. *)
Theorem no_bins_no_use (xMin xMax : float64) :
  exists h,
    NewH1D 0 xMin xMax = Ok h /\
    bins h = [NaN] /\
    MaximumBin h = Ok 0 /\
    Mode h = Panics IndexOutOfRange /\
    forall val weight,
      (length weight <= 1)%nat ->
      Fill h val weight = Panics IndexOutOfRange.
Proof.
  assert (Hedge : (xMin + of_Z 0 * ((xMax - xMin) / of_Z 0))%f64 = NaN).
  { change (of_Z 0) with (S754_zero false).
    assert (Hstep : forall y : float64,
              (S754_zero false * (y / S754_zero false))%f64 = NaN)
      by (intros [s|s| |s m e]; reflexivity).
    rewrite Hstep. apply add_NaN_r. }
  eexists. split.
  - unfold NewH1D.
    change (make (GoInt.wrap (0 + 2)))
      with (@Ok (list float64) [S754_zero false; S754_zero false]).
    change (make (GoInt.wrap (0 + 1)))
      with (@Ok (list float64) [S754_zero false]).
    change (Z.to_nat (GoInt.wrap (0 + 1))) with 1%nat.
    cbn [rbind for_loop]. unfold assign.
    change ((0 <=? 0) && (0 <? Z.of_nat (length [S754_zero false])))
      with true.
    cbn [Z.to_nat set_nth rbind].
    rewrite Hedge. reflexivity.
  - cbn [bins]. split; [reflexivity|]. split; [reflexivity|].
    split; [reflexivity|].
    intros val weight Hlen. unfold Fill.
    replace (1 <? length weight)%nat with false
      by (symmetry; apply Nat.ltb_ge; exact Hlen).
    cbv zeta. cbn [counted bins nBins index length Z.of_nat Z.leb Z.ltb
                   Z.compare andb Pos.of_succ_nat Pos.compare
                   Pos.compare_cont Z.to_nat nth rbind].
    replace (val <? NaN)%f64 with false by (destruct val; reflexivity).
    change (val >? NaN)%f64 with false.
    change (Z.to_nat (GoInt.wrap (0 - 1))) with 0%nat.
    cbn [Fill_scan rbind]. reflexivity.
Qed.

End ScalingClaims.

(** ** Finding a bin *)

Section Finding.

Import math hist hist_find HistTests Rounds.
Local Open Scope Z_scope.

Variable int_of_other : float64 -> Z.

(** A binary64 number between -1 and 1 has the integer part 0. *)
Lemma int_below_one (f : float64) :
  is_binary64 f = true -> (Abs f <? of_Z 1)%f64 = true ->
  int_of_float64 int_of_other f = 0.
Proof.
  destruct f as [s|s| |s m e]; intros Hv Hlt; try reflexivity;
    try discriminate Hlt.
  unfold is_binary64, valid_binary, bounded, canonical_mantissa in Hv.
  apply andb_true_iff in Hv. destruct Hv as [Hc _].
  apply Z.eqb_eq in Hc. unfold fexp, SpecFloat.emin, prec, emax in Hc.
  pose proof (digits2_pos_bound m) as Hd.
  assert (Hm : e < 0 /\ Zpos m < 2 ^ (- e)).
  { unfold ltb, SFltb, Abs in Hlt. cbn [SFabs] in Hlt.
    change (of_Z 1) with (S754_finite false 4503599627370496 (-52)) in Hlt.
    cbn [SFcompare] in Hlt. rewrite compare_cont_Z in Hlt.
    destruct (Z.compare_spec e (-52)) as [He|He|He]; try discriminate Hlt.
    - subst e. split; [lia|].
      destruct (Z.compare_spec (Zpos m) 4503599627370496);
        try discriminate Hlt.
      change (2 ^ (- -52)) with 4503599627370496. lia.
    - split; [lia|].
      assert (H53 : Zpos (digits2_pos m) <= 53) by lia.
      assert (Hp : 2 ^ Zpos (digits2_pos m) <= 2 ^ (- e))
        by (apply Z.pow_le_mono_r; lia).
      lia. }
  destruct Hm as [He Hm].
  assert (Hint : integer_part (S754_finite s m e) = 0).
  { unfold integer_part.
    replace (0 <=? e) with false by (symmetry; apply Z.leb_gt; exact He).
    rewrite Z.div_small by lia. destruct s; reflexivity. }
  unfold int_of_float64. rewrite Hint. reflexivity.
Qed.

Variable h : H1D.
Hypothesis wf : well_formed h.

Lemma limits_of (x : float64) :
  FindBin int_of_other h x =
  if (x <? edge_at h 0)%f64 then Ok 0
  else if (x >? edge_at h (nBins h))%f64 then Ok (nBins h + 1)
  else Ok (GoInt.wrap
             (1 + GoInt.wrap
                    (nBins h * int_of_float64 int_of_other (position h x)))).
Proof.
  destruct wf as (H0 & Hmax & Hb & _).
  unfold FindBin, XMin, XMax, position.
  rewrite !index_in by lia. cbn [rbind]. fold (edge_at h 0).
  fold (edge_at h (nBins h)).
  rewrite wrap_small by (unfold GoInt.MinInt, GoInt.MaxInt in *; lia).
  reflexivity.
Qed.

Lemma FindBin_below_one (x : float64) :
  (x <? edge_at h 0)%f64 = false ->
  (x >? edge_at h (nBins h))%f64 = false ->
  is_binary64 (position h x) = true ->
  (Abs (position h x) <? of_Z 1)%f64 = true ->
  FindBin int_of_other h x = Ok 1.
Proof.
  intros Hlo Hhi Hv Hlt. rewrite limits_of, Hlo, Hhi.
  rewrite (int_below_one _ Hv Hlt), Z.mul_0_r. reflexivity.
Qed.

Lemma BinCenter_in (j : Z) :
  1 <= j <= nBins h -> BinCenter h j = Ok (centre_of h j).
Proof.
  intros Hj. destruct wf as (H0 & Hmax & Hb & _).
  unfold BinCenter, centre_of, edge_at.
  rewrite wrap_small by (unfold GoInt.MinInt, GoInt.MaxInt in *; lia).
  rewrite !index_in by lia. reflexivity.
Qed.

Lemma BinContent_in (j : Z) :
  0 <= j <= nBins h + 1 -> BinContent h j = Ok (content_at h j).
Proof.
  intros Hj. destruct wf as (H0 & Hmax & _ & Hc & _).
  unfold BinContent, content_at. rewrite index_in by lia. reflexivity.
Qed.

End Finding.

Section FindingClaims.

Import math hist hist_find HistTests Rounds.
Local Open Scope Z_scope.

(** X18. [FindBin] of [H1D] multiplies [nBins] by the integer part of the
    position [(x - XMin) / (XMax - XMin)] instead of taking the integer
    part of the product.  So, on a well-formed histogram, for an [x]
    within the limits whose position is below 1 in absolute value, it
    returns the bin 1, whichever bin [x] lies in; and for a position that
    is exactly 1, as for [x == XMax], it returns the overflow bin
    [nBins + 1], while [Fill] counts this value in the last regular bin. *)
Theorem FindBin_ignores_the_bin (int_of_other : float64 -> Z) (h : H1D)
  (x : float64) :
  well_formed h ->
  (x <? edge_at h 0)%f64 = false ->
  (x >? edge_at h (nBins h))%f64 = false ->
  is_binary64 (position h x) = true ->
  ((Abs (position h x) <? of_Z 1)%f64 = true ->
   FindBin int_of_other h x = Ok 1) /\
  (position h x = of_Z 1 -> FindBin int_of_other h x = Ok (nBins h + 1)).
Proof.
  intros Hwf Hlo Hhi Hv. split.
  - apply FindBin_below_one; assumption.
  - intros Hone. rewrite (limits_of int_of_other h Hwf), Hlo, Hhi, Hone.
    change (int_of_float64 int_of_other (of_Z 1)) with 1.
    destruct Hwf as (H0 & Hmax & _).
    rewrite Z.mul_1_r.
    rewrite (wrap_small (nBins h))
      by (unfold GoInt.MinInt, GoInt.MaxInt in *; lia).
    rewrite wrap_small by (unfold GoInt.MinInt, GoInt.MaxInt in *; lia).
    f_equal. lia.
Qed.

Lemma FindBin_ignores_the_bin_witness :
  FindBin (fun _ => 0) four_bins (of_Z 3) = Ok 1 /\
  FindBin (fun _ => 0) four_bins (of_Z 4) = Ok 5.
Proof.
  split.
  - exact (proj1 (FindBin_ignores_the_bin (fun _ => 0) four_bins (of_Z 3)
                    four_bins_well_formed eq_refl eq_refl eq_refl) eq_refl).
  - exact (proj2 (FindBin_ignores_the_bin (fun _ => 0) four_bins (of_Z 4)
                    four_bins_well_formed eq_refl eq_refl eq_refl) eq_refl).
Defined.

(** X19. As a consequence, on a well-formed histogram with at least two
    bins, [Interpolate] at an [x] between the centres of the first and the
    last bin (and with a position below 1) always takes the line through
    the first two bins, [(centre 1, content 1)] and
    [(centre 2, content 2)], whichever bins are the neighbours of [x]. *)
Theorem Interpolate_uses_first_bins (int_of_other : float64 -> Z) (h : H1D)
  (x : float64) :
  well_formed h -> 2 <= nBins h ->
  (x <? edge_at h 0)%f64 = false ->
  (x >? edge_at h (nBins h))%f64 = false ->
  is_binary64 (position h x) = true ->
  (Abs (position h x) <? of_Z 1)%f64 = true ->
  (x <=? centre_of h 1)%f64 = false ->
  (centre_of h (nBins h) <=? x)%f64 = false ->
  Interpolate int_of_other h x
  = Ok (content_at h 1
        + (x - centre_of h 1)
          * ((content_at h 2 - content_at h 1)
             / (centre_of h 2 - centre_of h 1)))%f64.
Proof.
  intros Hwf Hn Hlo Hhi Hv Hlt Hfirst Hlast.
  unfold Interpolate, NBins.
  rewrite (FindBin_below_one int_of_other h Hwf x Hlo Hhi Hv Hlt).
  cbn [rbind].
  change (GoInt.wrap (1 + 1)) with 2.
  rewrite !(BinCenter_in h Hwf 1) by lia. cbn [rbind]. rewrite Hfirst.
  rewrite (BinCenter_in h Hwf (nBins h)) by lia. cbn [rbind]. rewrite Hlast.
  rewrite (BinCenter_in h Hwf 2) by lia.
  rewrite (BinContent_in h Hwf 1), (BinContent_in h Hwf 2) by lia.
  reflexivity.
Qed.

Lemma Interpolate_uses_first_bins_witness :
  Interpolate (fun _ => 0)
    (with_content four_bins [of_Z 0; of_Z 10; of_Z 20; of_Z 40; of_Z 80; of_Z 0])
    (of_Z 3)
  = Ok (of_Z 35).
Proof.
  assert (Hwf : well_formed
            (with_content four_bins
               [of_Z 0; of_Z 10; of_Z 20; of_Z 40; of_Z 80; of_Z 0])).
  { unfold well_formed, GoInt.MaxInt. cbn. repeat split; lia. }
  rewrite (Interpolate_uses_first_bins (fun _ => 0) _ (of_Z 3) Hwf).
  - vm_compute. reflexivity.
  - cbn. lia.
  - reflexivity.
  - reflexivity.
  - reflexivity.
  - reflexivity.
  - reflexivity.
  - reflexivity.
Defined.

End FindingClaims.

(** ** Bisection on limits that are not numbers *)

Section BisectNaN.

Import math root.
Local Open Scope f64_scope.

Variable fx : float64 -> float64.

(** With a NaN among the limits the midpoint is NaN, the half-width is no
    number, and the midpoint replaces a limit: a NaN stays among them. *)
Lemma Bisect_body_NaN (a b : float64) :
  a = NaN \/ b = NaN ->
  ((fx NaN == S754_zero false) = true ->
   Bisect_body fx a b = (inl NaN, [CallFx NaN])) /\
  ((fx NaN == S754_zero false) = false ->
   exists a' b', (a' = NaN \/ b' = NaN) /\
     Bisect_body fx a b = (inr (a', b'), [CallFx NaN; CallFx a])).
Proof.
  intros Hab.
  assert (Hc : (a + b) / c2 = NaN)
    by (destruct Hab; subst; rewrite ?add_NaN_l, ?add_NaN_r; reflexivity).
  assert (Hw : ((b - a) / c2 <? bisectTolerance) = false)
    by (destruct Hab; subst; rewrite ?sub_NaN_l, ?sub_NaN_r; reflexivity).
  unfold Bisect_body. rewrite Hc, Hw. split; intros Hz; rewrite Hz.
  - reflexivity.
  - cbn [orb].
    destruct (numerics.Sign (fx NaN) =? numerics.Sign (fx a))%Z.
    + exists NaN, b. split; [left|]; reflexivity.
    + exists a, NaN. split; [right|]; reflexivity.
Qed.

Lemma Bisect_loop_NaN (k : nat) (a b : float64) :
  a = NaN \/ b = NaN ->
  fst (Bisect_loop k fx a b) = NaN /\
  ((fx NaN == S754_zero false) = true -> (1 <= k)%nat ->
   snd (Bisect_loop k fx a b) = [CallFx NaN]) /\
  ((fx NaN == S754_zero false) = false ->
   length (snd (Bisect_loop k fx a b)) = (2 * k)%nat /\
   forall x, In (CallFx x) (snd (Bisect_loop k fx a b)) ->
             x = NaN \/ x = a \/ x = b).
Proof.
  revert a b. induction k as [|k IH]; intros a b Hab.
  - cbn. repeat split; intros; try lia; contradiction.
  - destruct (Bisect_body_NaN a b Hab) as [Hstop Hgo].
    cbn [Bisect_loop].
    destruct (fx NaN == S754_zero false) eqn:Hz.
    + rewrite (Hstop eq_refl). cbn. repeat split; intros; discriminate.
    + destruct (Hgo eq_refl) as (a' & b' & Hab' & Hbody).
      rewrite Hbody. destruct (IH a' b' Hab') as (Hres & _ & Hlen).
      destruct (Hlen eq_refl) as [Hl Hin].
      unfold bind. cbn [fst snd].
      destruct (Bisect_loop k fx a' b') as [r tr] eqn:Hrun.
      cbn [fst snd app] in *. split; [exact Hres|].
      split; [intros; discriminate|]. intros _. split.
      * cbn [length]. lia.
      * intros x [Hx|[Hx|Hx]].
        -- left. congruence.
        -- right. left. congruence.
        -- assert (Hlim : a' = NaN /\ b' = b \/ a' = a /\ b' = NaN).
           { unfold Bisect_body in Hbody.
             destruct Hab as [Ha|Hb]; subst;
               rewrite ?add_NaN_l, ?add_NaN_r, ?sub_NaN_l, ?sub_NaN_r in Hbody;
               change (NaN / c2) with NaN in Hbody;
               rewrite Hz, NaN_ltb in Hbody; cbn [orb] in Hbody;
               match type of Hbody with
               | context [Z.eqb ?u ?v] => destruct (Z.eqb u v)
               end; inversion Hbody; auto. }
           destruct (Hin x Hx) as [H1|[H1|H1]];
             destruct Hlim as [[Ha' Hb']|[Ha' Hb']]; subst; auto.
Qed.

End BisectNaN.

Section BisectNaNClaims.

Import math root.
Local Open Scope f64_scope.

(** X20. [Bisect] with a NaN among its limits returns NaN, whatever [fx]
    is: every midpoint is NaN and the half-width never gets below the
    tolerance.  When [fx(NaN) == 0] the NaN is returned as the root after
    the first call; otherwise all the 100 iterations are made, with 200
    calls of [fx], each of them at NaN or at one of the two limits. *)
Theorem Bisect_of_NaN_limit (fx : float64 -> float64) (aInit bInit : float64) :
  IsNaN aInit = true \/ IsNaN bInit = true ->
  fst (Bisect fx aInit bInit) = NaN /\
  ((fx NaN == S754_zero false) = true ->
   snd (Bisect fx aInit bInit) = [CallFx NaN]) /\
  ((fx NaN == S754_zero false) = false ->
   length (snd (Bisect fx aInit bInit)) = 200%nat /\
   forall x, In (CallFx x) (snd (Bisect fx aInit bInit)) ->
             x = NaN \/ x = aInit \/ x = bInit).
Proof.
  intros Hab.
  assert (Hab' : aInit = NaN \/ bInit = NaN)
    by (destruct Hab as [H|H]; apply IsNaN_true in H; auto).
  destruct (Bisect_loop_NaN fx bisectMaxIter aInit bInit Hab')
    as (Hres & Hstop & Hgo).
  unfold Bisect. split; [exact Hres|]. split.
  - intros Hz. apply Hstop; [exact Hz|]. unfold bisectMaxIter. lia.
  - intros Hz. destruct (Hgo Hz) as [Hl Hin]. split; [exact Hl|exact Hin].
Qed.

Lemma Bisect_of_NaN_limit_witness :
  fst (Bisect (fun x => x - of_Z 1) (of_Z 0) NaN) = NaN /\
  length (snd (Bisect (fun x => x - of_Z 1) (of_Z 0) NaN)) = 200%nat.
Proof.
  pose proof (Bisect_of_NaN_limit (fun x => x - of_Z 1) (of_Z 0) NaN
                (or_intror eq_refl)) as H.
  split.
  - exact (proj1 H).
  - exact (proj1 (proj2 (proj2 H) eq_refl)).
Defined.

End BisectNaNClaims.
